(** * Key-value storage providers: a shallow embedding and its properties

    The development follows the layout of the Go repository:

    - [errors]   : the unified error taxonomy ([errors/errors.go]);
    - [file]     : the snapshot file provider ([file/provider.go]);
    - [badger]   : the embedded engine provider ([badger/provider.go]);
    - [storage]  : the provider selector ([storage.go]).

    Go maps are finite maps ([gmap]), byte slices are lists of [ascii],
    Go's [(value, error)] results are pairs whose second component is an
    [option error] ([None] is Go's [nil]).  Methods that mutate their
    receiver or the outside world return the new state explicitly.  The
    reader/writer lock of the file provider is not represented: every
    operation is modelled as one sequential critical section. *)

From Stdlib Require Import String Ascii List NArith DecimalString DecimalN Permutation.
From stdpp Require Import base decidable option list gmap strings sorting.

Local Open Scope string_scope.

(** ** Go values *)

(** [[]byte]. *)
Abbreviation bytes := (list ascii).

(** [uint64]: a natural number below [2^64]. *)
Definition uint64 : Type := dsig (λ n : N, (n < 2 ^ 64)%N).

Definition uint64_val (x : uint64) : N := `x.

Lemma uint64_wrap_lt (n : N) : (n mod 2 ^ 64 < 2 ^ 64)%N.
Proof. apply N.mod_lt. discriminate. Qed.

(** The conversion [uint64(n)], wrapping around. *)
Definition to_uint64 (n : N) : uint64 := dexist (n mod 2 ^ 64)%N (uint64_wrap_lt n).

(** The type arguments admitted for [K] by the constraint
    [~string | ~uint64]: the two predeclared types and the defined types
    whose underlying type is one of them. *)
Inductive KeyType : Set :=
| KString          (* string *)
| KUint64          (* uint64 *)
| KDefinedString   (* type T string *)
| KDefinedUint64.  (* type T uint64 *)

(** The values of a key type. *)
Definition key (K : KeyType) : Type :=
  match K with
  | KString | KDefinedString => string
  | KUint64 | KDefinedUint64 => uint64
  end.

Global Instance key_eq_dec (K : KeyType) : EqDecision (key K).
Proof. destruct K; simpl; apply _. Defined.

Global Instance key_countable (K : KeyType) : Countable (key K).
Proof. destruct K; simpl; apply _. Defined.

(** [var k K]: the zero value. *)
Definition zeroKey (K : KeyType) : key K :=
  match K with
  | KString | KDefinedString => ""
  | KUint64 | KDefinedUint64 => to_uint64 0
  end.

(** ** package errors *)

Module errors.

(** Go's [error] values that occur in the program.  The three sentinel
    values are compared by identity in Go and are constructors here;
    every other [errors.New] value and every error of a library is an
    [errorString]. *)
#[warnings="-register-all"]
Inductive error : Type :=
| NotFound                         (* errors.NotFound *)
| ErrKeyNotFound                   (* badger.ErrKeyNotFound *)
| stopIterationErr                 (* the value made by ForEach *)
| errorString (msg : string)       (* errors.New(msg) *)
| joinError (errs : list error).   (* errors.Join(errs...) *)

(** [err == target]. *)
Fixpoint error_eqb (a b : error) : bool :=
  match a, b with
  | NotFound, NotFound => true
  | ErrKeyNotFound, ErrKeyNotFound => true
  | stopIterationErr, stopIterationErr => true
  | errorString s, errorString t => String.eqb s t
  | joinError l, joinError l' =>
      (fix go (l l' : list error) : bool :=
         match l, l' with
         | [], [] => true
         | x :: l, y :: l' => error_eqb x y && go l l'
         | _, _ => false
         end) l l'
  | _, _ => false
  end.

(** The walk of [errors.Is] over a non-nil error. *)
Fixpoint is_ (err target : error) : bool :=
  error_eqb err target ||
  match err with
  | joinError errs => existsb (λ e, is_ e target) errs
  | _ => false
  end.

(** [errors.Is(err, target)] for a non-nil [target]. *)
Definition Is (err : option error) (target : error) : bool :=
  match err with
  | None => false
  | Some e => is_ e target
  end.

(** [errors.Join]: nil arguments are dropped; nil when none is left. *)
Definition Join (errs : list (option error)) : option error :=
  match omap id errs with
  | [] => None
  | es => Some (joinError es)
  end.

Definition NewNotFound (parentError : option error) : option error :=
  Join [Some NotFound; parentError].

End errors.

Import errors.

(** "fails with NotFound": the returned error matches the sentinel under
    [errors.Is], as the callers and the tests check it. *)
Definition failsNotFound (err : option error) : Prop := errors.Is err NotFound = true.

Global Instance failsNotFound_dec err : Decision (failsNotFound err).
Proof. unfold failsNotFound. apply _. Defined.

(** ** The file system (package os)

    The provider reaches the outside world through [os.Stat],
    [os.ReadFile] and [os.WriteFile] only.  A world is the content of the
    files that exist together with the names the process cannot write
    (missing directory, permissions, empty name).  A refused write leaves
    the world as it was. *)

Module os.

Record World : Type := mkWorld {
  files : gmap string bytes;
  unwritable : gset string;
}.

Definition ErrNotExist : error := errorString "file does not exist".
Definition ErrPermission : error := errorString "permission denied".

Definition Stat (name : string) (w : World) : option error :=
  match files w !! name with
  | Some _ => None
  | None => Some ErrNotExist
  end.

Definition ReadFile (name : string) (w : World) : bytes * option error :=
  match files w !! name with
  | Some content => (content, None)
  | None => ([], Some ErrNotExist)
  end.

Definition WriteFile (name : string) (data : bytes) (w : World) : World * option error :=
  if decide (name ∈ unwritable w) then (w, Some ErrPermission)
  else (mkWorld (<[name := data]> (files w)) (unwritable w), None).

End os.

(** ** package file: the snapshot file provider *)

Module file.

Record Config : Type := mkConfig {
  Path : string;
  Content : string;
}.

(** [type Type string] and its two constants. *)
Definition Type_ : Type := string.
Definition jsn : Type_ := "json".
Definition yml : Type_ := "yaml".

(** [filepath.Ext]: the suffix of the last path element that starts at
    its last dot.  The scan runs from the end of the path. *)
Fixpoint ext_scan (rpath : bytes) (suffix : bytes) : bytes :=
  match rpath with
  | [] => []
  | c :: rest =>
      if Ascii.eqb c "/" then []
      else if Ascii.eqb c "." then c :: suffix
      else ext_scan rest (c :: suffix)
  end.

Definition Ext (path : string) : string :=
  string_of_list_ascii (ext_scan (rev (list_ascii_of_string path)) []).

(** [strings.ToLower] on the ASCII letters; the three extensions it is
    compared with are ASCII, and no other letter lowers to one of
    theirs. *)
Definition lower (c : ascii) : ascii :=
  let n := N_of_ascii c in
  if ((65 <=? n) && (n <=? 90))%N then ascii_of_N (n + 32) else c.

Fixpoint ToLower (s : string) : string :=
  match s with
  | EmptyString => EmptyString
  | String c s' => String (lower c) (ToLower s')
  end.

Section provider.

Context {K : KeyType} {V : Type}.

Record data : Type := mkData {
  DataMap : gmap (key K) V;
  References : gmap (key K) (key K);
}.

(** What [saveToFile] hands to the encoder: the values alone or the
    whole [data]. *)
Inductive document : Type :=
| Values (vs : list V)
| Data (d : data).

(** The two codecs, [encoding/json] and [gopkg.in/yaml.v3].
    Unmarshalling decodes into an existing [data] and gives it back
    with what could be decoded. *)
Class Codecs : Type := {
  json_Unmarshal : bytes → data → data * option error;
  yaml_Unmarshal : bytes → data → data * option error;
  json_MarshalIndent : document → bytes * option error;
  yaml_Marshal : document → bytes * option error;
}.

Context `{!Codecs}.

Record provider : Type := mkProvider {
  cfg : Config;
  data_ : data;
  fileType : Type_;
}.

Definition set_data (p : provider) (d : data) : provider :=
  mkProvider (cfg p) d (fileType p).

Definition set_fileType (p : provider) (t : Type_) : provider :=
  mkProvider (cfg p) (data_ p) t.

(** [any(k).(int)] on the zero key: no admitted key type is [int]. *)
Definition key_is_int (T : KeyType) : bool :=
  match T with
  | KString | KUint64 | KDefinedString | KDefinedUint64 => false
  end.

Definition saveToFile (p : provider) (w : os.World) : os.World * option error :=
  let d :=
    if key_is_int K then Values ((map_to_list (DataMap (data_ p))).*2)
    else Data (data_ p) in
  let marshalled :=
    if String.eqb (fileType p) yml then Some (yaml_Marshal d)
    else if String.eqb (fileType p) jsn then Some (json_MarshalIndent d)
    else None in
  match marshalled with
  | None => (w, Some (errorString "unsupported file format"))
  | Some (_, Some err) => (w, Some err)
  | Some (bs, None) => os.WriteFile (Path (cfg p)) bs w
  end.

Definition Setup (p : provider) (w : os.World) : provider * os.World * option error :=
  if negb (String.eqb (Content (cfg p)) "") then (p, w, None)
  else
    match os.Stat (Path (cfg p)) w with
    | Some err =>
        if errors.Is (Some err) os.ErrNotExist then
          let '(w', err) := os.WriteFile (Path (cfg p)) [] w in (p, w', err)
        else (p, w, Some err)
    | None =>
        match os.ReadFile (Path (cfg p)) w with
        | (_, Some err) => (p, w, Some err)
        | (bs, None) =>
            if String.eqb (fileType p) yml then
              let '(d, err) := yaml_Unmarshal bs (data_ p) in (set_data p d, w, err)
            else if String.eqb (fileType p) jsn then
              let '(d, err) := json_Unmarshal bs (data_ p) in (set_data p d, w, err)
            else (p, w, Some (errorString "unsupported file format"))
        end
    end.

Definition New (cfg : Config) (w : os.World) : option provider * os.World * option error :=
  let p := mkProvider cfg (mkData ∅ ∅) "" in
  let parsed : provider * option error :=
    if negb (String.eqb (Content cfg) "") then
      let '(d, err) := json_Unmarshal (list_ascii_of_string (Content cfg)) (data_ p) in
      match err with
      | Some _ =>
          let '(d, err) := yaml_Unmarshal (list_ascii_of_string (Content cfg)) d in
          match err with
          | Some _ => (p, err)
          | None => (mkProvider cfg d yml, None)
          end
      | None => (mkProvider cfg d jsn, None)
      end
    else
      let ext := ToLower (Ext (Path cfg)) in
      if String.eqb ext ".yaml" || String.eqb ext ".yml" then (set_fileType p yml, None)
      else if String.eqb ext ".json" then (set_fileType p jsn, None)
      else (p, Some (errorString
             "unsupported file format: only .json, .yaml, and .yml are supported")) in
  match parsed with
  | (_, Some err) => (None, w, Some err)
  | (p, None) =>
      match Setup p w with
      | (_, w', Some err) => (None, w', Some err)
      | (p', w', None) => (Some p', w', None)
      end
  end.

Definition Shutdown (p : provider) (w : os.World) : os.World * option error :=
  saveToFile p w.

Definition Store (key : key K) (value : V) (p : provider) (w : os.World)
  : provider * os.World * option error :=
  let p' := set_data p (mkData (<[key := value]> (DataMap (data_ p))) (References (data_ p))) in
  let '(w', err) := saveToFile p' w in
  (p', w', err).

Context (zeroV : V).

Definition Get (key : key K) (p : provider) : V * option error :=
  match DataMap (data_ p) !! key with
  | None => (zeroV, Some NotFound)
  | Some value => (value, None)
  end.

(** The loop of [GetMultiple]; [values] is the slice built so far. *)
Fixpoint getMultiple (keys : list (key K)) (values : list V) (p : provider)
  : list V * option error :=
  match keys with
  | [] => (values, None)
  | key :: keys' =>
      match Get key p with
      | (_, Some err) => ([], Some err)
      | (v, None) => getMultiple keys' (values ++ [v]) p
      end
  end.

Definition GetMultiple (keys : list (key K)) (p : provider) : list V * option error :=
  getMultiple keys [] p.

Definition Remove (key : key K) (p : provider) (w : os.World)
  : provider * os.World * option error :=
  match DataMap (data_ p) !! key with
  | None => (p, w, Some NotFound)
  | Some _ =>
      let p' := set_data p (mkData (delete key (DataMap (data_ p))) (References (data_ p))) in
      let '(w', err) := saveToFile p' w in
      (p', w', err)
  end.

(** The body of [for k, v := range m]: [entries] is the order in
    which the runtime yields the map, which Go leaves unspecified.
    The visitor carries its own state [S]. *)
Fixpoint rangeLoop {S : Type} (fn : key K → V → S → bool * S)
    (entries : list (key K * V)) (s : S) : S :=
  match entries with
  | [] => s
  | (k, v) :: rest =>
      let '(continue, s') := fn k v s in
      if continue then rangeLoop fn rest s' else s'
  end.

(** An order in which [range] may yield a map. *)
Definition rangeOrder {A : Type} (m : gmap (key K) A) (entries : list (key K * A)) : Prop :=
  entries ≡ₚ map_to_list m.

(** [entries] is the order the runtime picks for this call, a
    [rangeOrder] of the data map of [p]. *)
Definition ForEach {S : Type} (fn : key K → V → S → bool * S)
    (entries : list (key K * V)) (p : provider) (s : S) : S * option error :=
  (rangeLoop fn entries s, None).

Definition StoreReference (reference key : key K) (p : provider) (w : os.World)
  : provider * os.World * option error :=
  let p' := set_data p (mkData (DataMap (data_ p)) (<[reference := key]> (References (data_ p)))) in
  let '(w', err) := saveToFile p' w in
  (p', w', err).

Definition RemoveReference (reference : key K) (p : provider) (w : os.World)
  : provider * os.World * option error :=
  match References (data_ p) !! reference with
  | None => (p, w, Some NotFound)
  | Some _ =>
      let p' := set_data p (mkData (DataMap (data_ p)) (delete reference (References (data_ p)))) in
      let '(w', err) := saveToFile p' w in
      (p', w', err)
  end.

Definition GetByReference (reference : key K) (p : provider) : V * option error :=
  match References (data_ p) !! reference with
  | None => (zeroV, Some NotFound)
  | Some key =>
      match DataMap (data_ p) !! key with
      | None => (zeroV, Some NotFound)
      | Some value => (value, None)
      end
  end.

End provider.

Global Arguments data : clear implicits.
Global Arguments document : clear implicits.
Global Arguments Codecs : clear implicits.
Global Arguments provider : clear implicits.

End file.

(** ** The embedded engine (github.com/dgraph-io/badger/v4)

    The engine is an external collaborator.  Its keyspace is a finite map
    from byte strings to byte strings; the model covers the part of its
    transaction interface the provider calls, with the behaviour the
    engine documents: [Txn.Get] reports [ErrKeyNotFound] for a key the
    keyspace lacks, [Txn.Set] writes an entry, [Txn.Delete] writes a
    delete marker whether or not the key is there and reports nothing,
    and an iterator walks the keys in byte-wise lexicographic order.
    [DB.Update] commits what its function wrote unless the function
    failed.  The engine's size limits, key admission rules and I/O
    failures are outside the model. *)

Module engine.

Abbreviation DB := (gmap bytes bytes).

Record Options : Type := mkOptions {
  Dir : string;
  InMemory : bool;
}.

(** [DefaultOptions(path)] and [WithInMemory(b)] ([WithLogger] has no
    bearing on the model). *)
Definition DefaultOptions (path : string) : Options := mkOptions path false.
Definition WithInMemory (b : bool) (o : Options) : Options := mkOptions (Dir o) b.

Definition Get (k : bytes) (txn : DB) : bytes * option error :=
  match txn !! k with
  | Some val => (val, None)
  | None => ([], Some ErrKeyNotFound)
  end.

Definition Set_ (k v : bytes) (txn : DB) : DB * option error :=
  (<[k := v]> txn, None).

Definition Delete (k : bytes) (txn : DB) : DB * option error :=
  (delete k txn, None).

Definition Update (fn : DB → DB * option error) (db : DB) : DB * option error :=
  match fn db with
  | (_, Some err) => (db, Some err)
  | (db', None) => (db', None)
  end.

Definition View {A : Type} (fn : DB → A) (db : DB) : A := fn db.

(** Byte-wise lexicographic order on keys. *)
Fixpoint bytes_leb (a b : bytes) : bool :=
  match a, b with
  | [], _ => true
  | _ :: _, [] => false
  | x :: a', y :: b' =>
      if (N_of_ascii x <? N_of_ascii y)%N then true
      else if (N_of_ascii y <? N_of_ascii x)%N then false
      else bytes_leb a' b'
  end.

Definition key_le (x y : bytes * bytes) : Prop := bytes_leb x.1 y.1.

Global Instance key_le_dec : RelDecision key_le.
Proof. intros x y. unfold key_le. apply _. Defined.

(** The items an iterator yields from [Rewind] on. *)
Definition items (txn : DB) : list (bytes * bytes) :=
  merge_sort key_le (map_to_list txn).

End engine.

(** ** package strconv *)

Module strconv.

(** [FormatUint(n, 10)]. *)
Definition FormatUint (n : uint64) : string :=
  NilZero.string_of_uint (N.to_uint (uint64_val n)).

Definition ErrSyntax : error := errorString "invalid syntax".
Definition ErrRange : error := errorString "value out of range".

(** [ParseUint(s, 10, 64)]: one or more decimal digits, and a value
    that fits 64 bits. *)
Definition ParseUint (s : string) : uint64 * option error :=
  match NilZero.uint_of_string s with
  | None => (to_uint64 0, Some ErrSyntax)
  | Some d =>
      match decide (N.of_uint d < 2 ^ 64)%N with
      | left H => (dexist (N.of_uint d) H, None)
      | right _ => (to_uint64 (2 ^ 64 - 1), Some ErrRange)
      end
  end.

End strconv.

(** ** package badger: the embedded engine provider *)

Module badger.

Record Config : Type := mkConfig {
  DirectoryPath : option string;   (* nullable.Nullable[string] *)
  InMemory : bool;
}.

Definition mapError (err : option error) : option error :=
  if errors.Is err ErrKeyNotFound then errors.NewNotFound err else err.

Definition errUnknownKeyType : error :=
  errorString "unknown key type (string, uint64 supported)".

(** The type switch of [keyToByte] sees the dynamic type of the key: a
    defined type matches neither [string] nor [uint64]. *)
Definition keyToByte {K : KeyType} : key K → bytes * option error :=
  match K with
  | KString => λ k, (list_ascii_of_string k, None)
  | KUint64 => λ k, (list_ascii_of_string (strconv.FormatUint k), None)
  | KDefinedString | KDefinedUint64 => λ _, ([], Some errUnknownKeyType)
  end.

Definition byteToKey {K : KeyType} (b : bytes) : key K * option error :=
  match K with
  | KString => (string_of_list_ascii b, None)
  | KUint64 =>
      match strconv.ParseUint (string_of_list_ascii b) with
      | (_, Some _) => (zeroKey KUint64, Some (errorString "failed to convert bytes to uint64"))
      | (intValue, None) => (intValue, None)
      end
  | KDefinedString => (zeroKey KDefinedString, Some errUnknownKeyType)
  | KDefinedUint64 => (zeroKey KDefinedUint64, Some errUnknownKeyType)
  end.

Section provider.

Context {K : KeyType} {V : Type}.

(** [encoding/gob] at the value type: [Encode] of a value, and
    [Decode] of a byte string into a fresh variable, which gives the
    variable back with the error. *)
Class Gob : Type := {
  gob_Encode : V → bytes * option error;
  gob_Decode : bytes → V * option error;
}.

(** [badger.Open]. *)
Class Opener : Type := Open : engine.Options → engine.DB * option error.

Context `{!Gob} `{!Opener}.

Record provider : Type := mkProvider {
  cfg : Config;
  db : engine.DB;   (* the keyspace behind the *badger.DB handle *)
}.

Definition Setup (p : provider) : provider * option error :=
  if negb (InMemory (cfg p)) && negb (bool_decide (is_Some (DirectoryPath (cfg p)))) then
    (p, Some (errorString "directory path is null"))
  else
    let options :=
      if InMemory (cfg p) then engine.WithInMemory true (engine.DefaultOptions "")
      else engine.DefaultOptions (default "" (DirectoryPath (cfg p))) in
    match Open options with
    | (_, Some err) => (p, Some err)
    | (db, None) => (mkProvider (cfg p) db, None)
    end.

(** The handle is nil until [Setup] has run; [New] hands a provider
    out only after it has. *)
Definition New (cfg : Config) : option provider * option error :=
  match Setup (mkProvider cfg ∅) with
  | (_, Some err) => (None, Some err)
  | (p, None) => (Some p, None)
  end.

Definition encodeToBytes (data : V) : bytes * option error :=
  match gob_Encode data with
  | (_, Some err) => ([], Some err)
  | (buf, None) => (buf, None)
  end.

Definition decodeFromBytes (data : bytes) : V * option error :=
  gob_Decode data.

Definition Store (key : key K) (value : V) (p : provider) : provider * option error :=
  match keyToByte key with
  | (_, Some err) => (p, Some err)
  | (k, None) =>
      match encodeToBytes value with
      | (_, Some err) => (p, Some err)
      | (v, None) =>
          let '(db', err) := engine.Update (engine.Set_ k v) (db p) in
          (mkProvider (cfg p) db', mapError err)
      end
  end.

Context (zeroV : V).

Definition Get (key : key K) (p : provider) : V * option error :=
  match keyToByte key with
  | (_, Some err) => (zeroV, Some err)
  | (k, None) =>
      let '(value, err) :=
        engine.View (λ txn,
          match engine.Get k txn with
          | (_, Some err) => (zeroV, Some err)
          | (val, None) => decodeFromBytes val
          end) (db p) in
      (value, mapError err)
  end.

Fixpoint getMultiple (keys : list (key K)) (values : list V) (p : provider)
  : list V * option error :=
  match keys with
  | [] => (values, None)
  | key :: keys' =>
      match Get key p with
      | (_, Some err) => ([], Some err)
      | (v, None) => getMultiple keys' (values ++ [v]) p
      end
  end.

Definition GetMultiple (keys : list (key K)) (p : provider) : list V * option error :=
  getMultiple keys [] p.

Definition Remove (key : key K) (p : provider) : provider * option error :=
  match keyToByte key with
  | (_, Some err) => (p, Some err)
  | (k, None) =>
      let '(db', err) := engine.Update (engine.Delete k) (db p) in
      (mkProvider (cfg p) db', mapError err)
  end.

(** The iterator loop of [ForEach] over the items still to come. *)
Fixpoint iterate {S : Type} (fn : key K → V → S → bool * S)
    (items : list (bytes * bytes)) (s : S) : S * option error :=
  match items with
  | [] => (s, None)
  | (itemKey, val) :: rest =>
      match byteToKey itemKey with
      | (_, Some err) => (s, Some err)
      | (key, None) =>
          let '(s', err) :=
            match decodeFromBytes val with
            | (_, Some err) => (s, Some err)
            | (v, None) =>
                let '(continue, s') := fn key v s in
                if continue then (s', None) else (s', Some stopIterationErr)
            end in
          match err with
          | Some e =>
              if errors.Is (Some e) stopIterationErr then (s', None) else (s', Some e)
          | None => iterate fn rest s'
          end
      end
  end.

Definition ForEach {S : Type} (fn : key K → V → S → bool * S) (p : provider) (s : S)
  : S * option error :=
  let '(s', err) := engine.View (λ txn, iterate fn (engine.items txn) s) (db p) in
  (s', mapError err).

Definition StoreReference (reference key : key K) (p : provider) : provider * option error :=
  match keyToByte reference with
  | (_, Some err) => (p, Some err)
  | (r, None) =>
      match keyToByte key with
      | (_, Some err) => (p, Some err)
      | (k, None) =>
          let '(db', err) := engine.Update (engine.Set_ r k) (db p) in
          (mkProvider (cfg p) db', mapError err)
      end
  end.

Definition RemoveReference (reference : key K) (p : provider) : provider * option error :=
  match keyToByte reference with
  | (_, Some err) => (p, Some err)
  | (r, None) =>
      let '(db', err) := engine.Update (engine.Delete r) (db p) in
      (mkProvider (cfg p) db', mapError err)
  end.

Definition GetByReference (reference : key K) (p : provider) : V * option error :=
  match keyToByte reference with
  | (_, Some err) => (zeroV, Some err)
  | (r, None) =>
      let '(key, err) :=
        engine.View (λ txn,
          match engine.Get r txn with
          | (_, Some err) => (zeroKey K, Some err)
          | (val, None) => byteToKey val
          end) (db p) in
      match err with
      | Some _ => (zeroV, mapError err)
      | None => Get key p
      end
  end.

End provider.

Global Arguments Gob : clear implicits.
Global Arguments provider : clear implicits.

End badger.

(** ** package storage: the selector *)

Module storage.

Record KeyValueConfig : Type := mkKeyValueConfig {
  Badger : option badger.Config;   (* nullable.Nullable[badger.Config] *)
  File : option file.Config;       (* nullable.Nullable[file.Config] *)
}.

Section selector.

Context {K : KeyType} {V : Type}.
Context `{!file.Codecs K V} `{!badger.Gob V} `{!badger.Opener}.

(** The interface value [KeyValueProvider[K, V]]: one of the two
    implementations. *)
Inductive KeyValueProvider : Type :=
| ofBadger (p : badger.provider)
| ofFile (p : file.provider K V).

Definition errNotConfigured : error := errorString "storage provider is not configured".

Definition GetKeyValueProviderFromConfig (keyValueConfig : KeyValueConfig) (w : os.World)
  : option KeyValueProvider * os.World * option error :=
  match Badger keyValueConfig with
  | Some c =>
      let '(p, err) := badger.New c in (ofBadger <$> p, w, err)
  | None =>
      match File keyValueConfig with
      | Some c =>
          let '(p, w', err) := file.New c w in (ofFile <$> p, w', err)
      | None => (None, w, Some errNotConfigured)
      end
  end.

End selector.

Global Arguments KeyValueProvider : clear implicits.

End storage.

(** ** Vocabulary of the statements *)

(** The key types the engine provider supports: the two predeclared
    types named by its own error message. *)
Definition supported (K : KeyType) : bool :=
  match K with
  | KString | KUint64 => true
  | KDefinedString | KDefinedUint64 => false
  end.

(** The engine key of a provider key. *)
Definition keyBytes {K : KeyType} (k : key K) : bytes := (badger.keyToByte k).1.

(** A value the gob codec encodes and decodes back: what the data model
    calls a fully serializable value. *)
Definition serializable `{!badger.Gob V} (v : V) : Prop :=
  ∃ b, badger.gob_Encode v = (b, None) ∧ badger.gob_Decode b = (v, None).

(** The engine keyspace holds the entry [(k, v)]. *)
Definition stored `{!badger.Gob V} {K} (p : badger.provider) (k : key K) (v : V) : Prop :=
  ∃ b, badger.db p !! keyBytes k = Some b ∧ badger.gob_Decode b = (v, None).

(** The engine keyspace has nothing under the key. *)
Definition absent {K} (p : badger.provider) (k : key K) : Prop :=
  badger.db p !! keyBytes k = None.

(** The error the engine provider reports for a missing key: the
    sentinel joined with the engine's cause. *)
Definition engineNotFound : option error := Some (joinError [NotFound; ErrKeyNotFound]).

(** A visitor together with the log of the calls made to it. *)
Definition logging {K V S} (fn : key K → V → S → bool * S)
    : key K → V → S * list (key K * V) → bool * (S * list (key K * V)) :=
  λ k v '(s, log), let '(continue, s') := fn k v s in (continue, (s', (log ++ [(k, v)])%list)).

(** The visitor of the tests: it notes the entry and goes on. *)
Definition collect {K V} : key K → V → unit → bool * unit := λ _ _ _, (true, tt).

(** A file provider after a mutation of its two maps. *)
Definition withMaps {K V} (p : file.provider K V)
    (entries : gmap (key K) V) (refs : gmap (key K) (key K)) : file.provider K V :=
  file.set_data p (file.mkData entries refs).

Definition entriesOf {K V} (p : file.provider K V) : gmap (key K) V :=
  file.DataMap (file.data_ p).

Definition refsOf {K V} (p : file.provider K V) : gmap (key K) (key K) :=
  file.References (file.data_ p).

(** The document [saveToFile] writes for a provider that [New] made. *)
Definition marshalled {K V} `{!file.Codecs K V} (p : file.provider K V) : bytes * option error :=
  if String.eqb (file.fileType p) file.yml
  then file.yaml_Marshal (file.Data (file.data_ p))
  else file.json_MarshalIndent (file.Data (file.data_ p)).

(** An engine provider after a write to its keyspace. *)
Definition withDB (p : badger.provider) (db : engine.DB) : badger.provider :=
  badger.mkProvider (badger.cfg p) db.

(** The bytes the codec makes of a value. *)
Definition encodeValue `{!badger.Gob V} (v : V) : bytes := (badger.gob_Encode v).1.

Definition encodeEntry `{!badger.Gob V} {K} (e : key K * V) : bytes * bytes :=
  (keyBytes e.1, encodeValue e.2).

(** The keyspace of [p] is the encoded image of the entries [m]: every
    value is serializable and nothing else (no reference) is stored. *)
Definition holdsEntries `{!badger.Gob V} {K} (p : badger.provider) (m : gmap (key K) V) : Prop :=
  badger.db p = kmap keyBytes (encodeValue <$> m) ∧ map_Forall (λ _ v, serializable v) m.

(** The visitor says "go on" at every entry of [entries], from state [s]. *)
Fixpoint continues {K V S} (fn : key K → V → S → bool * S) (entries : list (key K * V)) (s : S)
  : bool :=
  match entries with
  | [] => true
  | (k, v) :: rest => (fn k v s).1 && continues fn rest (fn k v s).2
  end.

(** The visitor that stops at once. *)
Definition stopAtOnce {K V} : key K → V → unit → bool * unit := λ _ _ _, (false, tt).

(** ** A small instance to run the definitions on

    Values are strings.  The stand-in for gob marks what it encodes with
    a leading byte and refuses to decode anything else; the stand-ins for
    the file codecs read an empty document and write one line per entry. *)

Module demo.

Definition mark : ascii := "012".

Global Instance gob : badger.Gob string := {|
  badger.gob_Encode v := (mark :: list_ascii_of_string v, None);
  badger.gob_Decode b :=
    match b with
    | c :: rest =>
        if Ascii.eqb c mark then (string_of_list_ascii rest, None)
        else ("", Some (errorString "gob: unexpected input"))
    | [] => ("", Some (errorString "EOF"))
    end;
|}.

Global Instance open : badger.Opener := λ _, (∅, None).

Definition line (e : string * string) : bytes :=
  list_ascii_of_string (e.1 +:+ ": " +:+ e.2 +:+ ";").

Definition render (d : file.document KString string) : bytes * option error :=
  match d with
  | file.Values vs => (mjoin (list_ascii_of_string <$> vs), None)
  | file.Data d =>
      ((mjoin (line <$> map_to_list (file.DataMap d))
          ++ "|"%char :: mjoin (line <$> map_to_list (file.References d)))%list, None)
  end.

Definition parse (bs : bytes) (d : file.data KString string)
  : file.data KString string * option error :=
  if decide (bs = list_ascii_of_string "{}") then (d, None)
  else (d, Some (errorString "cannot parse")).

Global Instance codecs : file.Codecs KString string := {|
  file.json_Unmarshal := parse;
  file.yaml_Unmarshal := parse;
  file.json_MarshalIndent := render;
  file.yaml_Marshal := render;
|}.

Definition emptyWorld : os.World := os.mkWorld ∅ ∅.

(** A file provider over [db.yaml], empty. *)
Definition fileProvider : file.provider KString string :=
  file.mkProvider (file.mkConfig "db.yaml" "") (file.mkData ∅ ∅) file.yml.

(** An in-memory engine provider, empty. *)
Definition engineProvider : badger.provider :=
  badger.mkProvider (badger.mkConfig None true) ∅.

End demo.

(** ** Sample providers *)

(** Two providers that hold the entries [key1] and [key2]. *)
Definition twoEntries : gmap (key KString) string := {[ "key1" := "value1"; "key2" := "value2" ]}.

Definition fileTwo : file.provider KString string :=
  file.mkProvider (file.mkConfig "db.yaml" "") (file.mkData twoEntries ∅) file.yml.

Definition engineTwo : badger.provider :=
  ((badger.Store (K:=KString) "key2" "value2"
      (badger.Store (K:=KString) "key1" "value1" demo.engineProvider).1).1).

(** A world in which [db.yaml] cannot be written. *)
Definition lockedWorld : os.World := os.mkWorld ∅ {[ "db.yaml" ]}.

(** A file provider with one entry and one reference to it. *)
Definition fileOne : file.provider KString string :=
  file.mkProvider (file.mkConfig "db.yaml" "")
    (file.mkData {[ "key" := "value" ]} {[ "ref" := "key" ]}) file.yml.

(** ** Vocabulary of the further properties *)

(** The decimal numeral of a number, as [FormatUint] writes it. *)
Definition decimal (n : N) : string := NilZero.string_of_uint (N.to_uint n).

(** Every key of the keyspace is the engine key of some provider key:
    what the provider's own writes produce. *)
Definition canonicalKeys (K : KeyType) (p : badger.provider) : Prop :=
  ∀ kb, is_Some (badger.db p !! kb) → ∃ k : key K, kb = keyBytes k.

(** The decoder [Setup] calls for a format. *)
Definition unmarshalled {K V} `{!file.Codecs K V} (t : file.Type_) (bs : bytes)
    (d : file.data K V) : file.data K V * option error :=
  if String.eqb t file.yml then file.yaml_Unmarshal bs d else file.json_Unmarshal bs d.

(** The empty [data] a new provider starts from. *)
Definition noData {K V} : file.data K V := file.mkData ∅ ∅.

(** The format the switch of [New] picks for a path, if any. *)
Definition extensionFormat (path : string) : option file.Type_ :=
  let ext := file.ToLower (file.Ext path) in
  if String.eqb ext ".yaml" || String.eqb ext ".yml" then Some file.yml
  else if String.eqb ext ".json" then Some file.jsn
  else None.

(** A name part without a dot or a path separator. *)
Definition plainName (e : string) : Prop :=
  Forall (λ c, Ascii.eqb c "/" = false ∧ Ascii.eqb c "." = false) (list_ascii_of_string e).

(** ** A line codec

    A second stand-in for the file codecs, one that reads back what it
    writes: an entry is the line [key=value], the entries come first and
    the references follow a line [#].  Keys and values are taken to hold
    neither [=] nor a line break. *)

Module lines.

Definition nl : ascii := "010".

Definition entryLine (e : string * string) : bytes :=
  (list_ascii_of_string e.1 ++ "="%char :: list_ascii_of_string e.2 ++ [nl])%list.

Definition render (d : file.document KString string) : bytes * option error :=
  match d with
  | file.Values vs => (mjoin ((λ v, list_ascii_of_string v ++ [nl])%list <$> vs), None)
  | file.Data d =>
      ((mjoin (entryLine <$> map_to_list (file.DataMap d))
          ++ "#"%char :: nl :: mjoin (entryLine <$> map_to_list (file.References d)))%list,
       None)
  end.

(** The lines of a text, each without its line break; [cur] is the line
    being read, reversed. *)
Fixpoint splitLines (bs : bytes) (cur : bytes) : list bytes :=
  match bs with
  | [] => match cur with [] => [] | _ => [rev cur] end
  | c :: rest => if Ascii.eqb c nl then rev cur :: splitLines rest [] else splitLines rest (c :: cur)
  end.

(** A line [key=value], cut at its first [=]. *)
Fixpoint cutLine (l : bytes) (k : bytes) : option (string * string) :=
  match l with
  | [] => None
  | c :: rest =>
      if Ascii.eqb c "=" then Some (string_of_list_ascii (rev k), string_of_list_ascii rest)
      else cutLine rest (c :: k)
  end.

(** The lines before [#] go to the entries and the lines after it to the
    references of [d]. *)
Fixpoint readLines (ls : list bytes) (inRefs : bool) (d : file.data KString string)
  : file.data KString string * option error :=
  match ls with
  | [] => (d, None)
  | l :: rest =>
      if decide (l = ["#"%char]) then readLines rest true d
      else
        match cutLine l [] with
        | None => (d, Some (errorString "line without ="))
        | Some (k, v) =>
            if inRefs
            then readLines rest true
                   (file.mkData (file.DataMap d) (<[(k : key KString) := v]> (file.References d)))
            else readLines rest false
                   (file.mkData (<[(k : key KString) := v]> (file.DataMap d)) (file.References d))
        end
  end.

Definition parse (bs : bytes) (d : file.data KString string)
  : file.data KString string * option error :=
  readLines (splitLines bs []) false d.

Definition codecs : file.Codecs KString string := {|
  file.json_Unmarshal := parse;
  file.yaml_Unmarshal := parse;
  file.json_MarshalIndent := render;
  file.yaml_Marshal := render;
|}.

End lines.

(** * Properties *)

(** ** Keys and their engine encoding *)

Section keys.

Context {K : KeyType}.

Lemma keyToByte_supported (k : key K) :
  supported K → badger.keyToByte k = (keyBytes k, None).
Proof. unfold keyBytes. destruct K; simpl; intros HK; try done. Qed.

Lemma ParseUint_FormatUint (n : uint64) :
  strconv.ParseUint (strconv.FormatUint n) = (n, None).
Proof.
  unfold strconv.ParseUint, strconv.FormatUint.
  rewrite NilZero.usu.
  - rewrite DecimalN.Unsigned.of_to.
    destruct (decide _) as [H|H].
    + f_equal. apply dsig_eq. reflexivity.
    + destruct H. apply (proj2_dsig n).
  - unfold uint64_val. destruct (`n) as [|q]; simpl; [discriminate|].
    apply DecimalPos.Unsigned.to_uint_nonnil.
Qed.

Lemma byteToKey_keyToByte (k : key K) :
  supported K → badger.byteToKey (keyBytes k) = (k, None).
Proof.
  unfold keyBytes. destruct K; simpl; intros HK; try done.
  - by rewrite string_of_list_ascii_of_string.
  - by rewrite string_of_list_ascii_of_string, ParseUint_FormatUint.
Qed.

Lemma keyBytes_inj (k1 k2 : key K) :
  supported K → keyBytes k1 = keyBytes k2 → k1 = k2.
Proof.
  intros HK Heq.
  pose proof (byteToKey_keyToByte k1 HK) as H1.
  pose proof (byteToKey_keyToByte k2 HK) as H2.
  rewrite Heq in H1. congruence.
Qed.

End keys.

(** ** The snapshot file provider *)

Section file_props.

Context {K : KeyType} {V : Type} {codecs : file.Codecs K V} (zeroV : V).

Implicit Types (p : file.provider K V) (w : os.World) (k r t : key K) (v : V).
Implicit Types (keys : list (key K)).

Lemma file_Store_eq k v p w :
  file.Store k v p w =
    (withMaps p (<[k := v]> (entriesOf p)) (refsOf p),
     (file.saveToFile (withMaps p (<[k := v]> (entriesOf p)) (refsOf p)) w).1,
     (file.saveToFile (withMaps p (<[k := v]> (entriesOf p)) (refsOf p)) w).2).
Proof. unfold file.Store, withMaps, entriesOf, refsOf. by destruct (file.saveToFile _ _). Qed.

Lemma file_StoreReference_eq r t p w :
  file.StoreReference r t p w =
    (withMaps p (entriesOf p) (<[r := t]> (refsOf p)),
     (file.saveToFile (withMaps p (entriesOf p) (<[r := t]> (refsOf p))) w).1,
     (file.saveToFile (withMaps p (entriesOf p) (<[r := t]> (refsOf p))) w).2).
Proof.
  unfold file.StoreReference, withMaps, entriesOf, refsOf. by destruct (file.saveToFile _ _).
Qed.

Lemma file_Remove_absent k p w :
  entriesOf p !! k = None → file.Remove k p w = (p, w, Some NotFound).
Proof. unfold file.Remove, entriesOf. by intros ->. Qed.

Lemma file_Remove_present k v p w :
  entriesOf p !! k = Some v →
  file.Remove k p w =
    (withMaps p (delete k (entriesOf p)) (refsOf p),
     (file.saveToFile (withMaps p (delete k (entriesOf p)) (refsOf p)) w).1,
     (file.saveToFile (withMaps p (delete k (entriesOf p)) (refsOf p)) w).2).
Proof.
  unfold file.Remove, withMaps, entriesOf, refsOf. intros ->.
  by destruct (file.saveToFile _ _).
Qed.

Lemma file_RemoveReference_absent r p w :
  refsOf p !! r = None → file.RemoveReference r p w = (p, w, Some NotFound).
Proof. unfold file.RemoveReference, refsOf. by intros ->. Qed.

Lemma file_RemoveReference_present r t p w :
  refsOf p !! r = Some t →
  file.RemoveReference r p w =
    (withMaps p (entriesOf p) (delete r (refsOf p)),
     (file.saveToFile (withMaps p (entriesOf p) (delete r (refsOf p))) w).1,
     (file.saveToFile (withMaps p (entriesOf p) (delete r (refsOf p))) w).2).
Proof.
  unfold file.RemoveReference, withMaps, entriesOf, refsOf. intros ->.
  by destruct (file.saveToFile _ _).
Qed.

Lemma file_Get_Some k v p : entriesOf p !! k = Some v → file.Get zeroV k p = (v, None).
Proof. unfold file.Get, entriesOf. by intros ->. Qed.

Lemma file_Get_None k p : entriesOf p !! k = None → file.Get zeroV k p = (zeroV, Some NotFound).
Proof. unfold file.Get, entriesOf. by intros ->. Qed.

Lemma file_GetByReference_no_alias r p :
  refsOf p !! r = None → file.GetByReference zeroV r p = (zeroV, Some NotFound).
Proof. unfold file.GetByReference, refsOf. by intros ->. Qed.

Lemma file_GetByReference_alias r t p :
  refsOf p !! r = Some t → file.GetByReference zeroV r p = file.Get zeroV t p.
Proof. unfold file.GetByReference, file.Get, refsOf. by intros ->. Qed.

(** The save is its only access to the world, and it reads nothing of
    the configuration but the path. *)
Lemma file_saveToFile_writes p w bs :
  file.fileType p = file.yml ∨ file.fileType p = file.jsn →
  (if String.eqb (file.fileType p) file.yml
   then file.yaml_Marshal (file.Data (file.data_ p))
   else file.json_MarshalIndent (file.Data (file.data_ p))) = (bs, None) →
  file.saveToFile p w = os.WriteFile (file.Path (file.cfg p)) bs w.
Proof.
  unfold file.saveToFile.
  replace (file.key_is_int K) with false by (by destruct K).
  intros [Ht|Ht]; rewrite Ht; simpl; by intros ->.
Qed.

Lemma file_saveToFile_error p w w' e :
  file.saveToFile p w = (w', Some e) → w' = w.
Proof.
  unfold file.saveToFile, os.WriteFile. intros H.
  repeat (case_match; simplify_eq); done.
Qed.

(** *** GetMultiple *)



(** *** ForEach *)

Lemma continues_always {S} (fn : key K → V → S → bool * S) entries s :
  (∀ k v s, (fn k v s).1 = true) → continues fn entries s = true.
Proof.
  intros Hfn. revert s. induction entries as [|[k v] rest IH]; intros s; simpl; [done|].
  by rewrite Hfn, IH.
Qed.

Lemma rangeLoop_logging_continues {S} (fn : key K → V → S → bool * S) entries s log :
  continues fn entries s = true →
  file.rangeLoop (logging fn) entries (s, log) =
    (file.rangeLoop fn entries s, (log ++ entries)%list).
Proof.
  revert s log. induction entries as [|[k v] rest IH]; intros s log; simpl.
  - by rewrite app_nil_r.
  - destruct (fn k v s) as [c s'] eqn:Hfn; simpl.
    intros [-> Hrest]%andb_true_iff. rewrite IH by done.
    by rewrite <- app_assoc.
Qed.

Lemma rangeLoop_logging_stop {S} (fn : key K → V → S → bool * S) pre k v post s log :
  continues fn pre s = true →
  (fn k v (file.rangeLoop fn pre s)).1 = false →
  file.rangeLoop (logging fn) (pre ++ (k, v) :: post) (s, log) =
    ((fn k v (file.rangeLoop fn pre s)).2, (log ++ pre ++ [(k, v)])%list).
Proof.
  revert s log. induction pre as [|[k' v'] pre IH]; intros s log; simpl.
  - intros _ Hstop. destruct (fn k v s) as [c s'] eqn:Hfn; simpl in *. by subst c.
  - destruct (fn k' v' s) as [c s'] eqn:Hfn; simpl.
    intros [-> Hrest]%andb_true_iff Hstop. rewrite IH by done.
    by rewrite <- app_assoc.
Qed.

End file_props.

(** ** The embedded engine provider *)

Section badger_props.

Context {K : KeyType} {V : Type} {gob : badger.Gob V} (zeroV : V).

Implicit Types (p : badger.provider) (k r t : key K) (v : V) (keys : list (key K)).

Lemma withDB_same p : withDB p (badger.db p) = p.
Proof. by destruct p. Qed.

Lemma badger_Store_eq k v b p :
  supported K → badger.gob_Encode v = (b, None) →
  badger.Store k v p = (withDB p (<[keyBytes k := b]> (badger.db p)), None).
Proof.
  intros HK Hb. unfold badger.Store, badger.encodeToBytes.
  by rewrite (keyToByte_supported k HK), Hb.
Qed.

Lemma badger_StoreReference_eq r t p :
  supported K →
  badger.StoreReference r t p = (withDB p (<[keyBytes r := keyBytes t]> (badger.db p)), None).
Proof.
  intros HK. unfold badger.StoreReference.
  by rewrite (keyToByte_supported r HK), (keyToByte_supported t HK).
Qed.

Lemma badger_Remove_eq k p :
  supported K →
  badger.Remove k p = (withDB p (delete (keyBytes k) (badger.db p)), None).
Proof. intros HK. unfold badger.Remove. by rewrite (keyToByte_supported k HK). Qed.

Lemma badger_RemoveReference_eq r p :
  supported K →
  badger.RemoveReference r p = (withDB p (delete (keyBytes r) (badger.db p)), None).
Proof. intros HK. unfold badger.RemoveReference. by rewrite (keyToByte_supported r HK). Qed.

Lemma badger_Get_eq k b p :
  supported K → badger.db p !! keyBytes k = Some b →
  badger.Get zeroV k p = ((badger.gob_Decode b).1, badger.mapError (badger.gob_Decode b).2).
Proof.
  intros HK Hb. unfold badger.Get, engine.View, engine.Get, badger.decodeFromBytes.
  rewrite (keyToByte_supported k HK), Hb. by destruct (badger.gob_Decode b).
Qed.

Lemma badger_Get_stored k v p :
  supported K → stored p k v → badger.Get zeroV k p = (v, None).
Proof. intros HK (b & Hb & Hdec). by rewrite (badger_Get_eq k b p HK Hb), Hdec. Qed.

Lemma badger_Get_absent k p :
  supported K → absent p k → badger.Get zeroV k p = (zeroV, engineNotFound).
Proof.
  intros HK Hk. unfold badger.Get, engine.View, engine.Get.
  by rewrite (keyToByte_supported k HK), Hk.
Qed.



(** *** GetMultiple *)



(** *** A keyspace that holds data entries only *)

Lemma serializable_decode v :
  serializable v → badger.gob_Encode v = (encodeValue v, None)
                   ∧ badger.gob_Decode (encodeValue v) = (v, None).
Proof. intros (b & Henc & Hdec). unfold encodeValue. by rewrite Henc. Qed.

Lemma keyBytes_Inj : supported K → Inj (=) (=) (@keyBytes K).
Proof. intros HK k1 k2. by apply keyBytes_inj. Qed.

Lemma holdsEntries_empty p : badger.db p = ∅ → holdsEntries (K:=K) p ∅.
Proof.
  intros Hdb. split; [|apply map_Forall_empty].
  by rewrite fmap_empty, kmap_empty.
Qed.

Lemma holdsEntries_Store k v p m :
  supported K → serializable v → holdsEntries p m →
  ∃ p', badger.Store k v p = (p', None) ∧ holdsEntries p' (<[k := v]> m).
Proof.
  intros HK Hv [Hdb Hm]. pose proof (keyBytes_Inj HK).
  destruct (serializable_decode v Hv) as [Henc _].
  eexists. split; [by apply badger_Store_eq|].
  split; [|by apply map_Forall_insert_2].
  simpl. by rewrite Hdb, fmap_insert, kmap_insert.
Qed.

Lemma holdsEntries_Remove k p m :
  supported K → holdsEntries p m →
  ∃ p', badger.Remove k p = (p', None) ∧ holdsEntries p' (delete k m).
Proof.
  intros HK [Hdb Hm]. pose proof (keyBytes_Inj HK).
  eexists. split; [by apply badger_Remove_eq|].
  split; [|by apply map_Forall_delete].
  simpl. by rewrite Hdb, fmap_delete, kmap_delete.
Qed.


(** *** ForEach *)

Lemma iterate_encoded {S} (fn : key K → V → S → bool * S) entries s :
  supported K → Forall (λ e, serializable e.2) entries →
  badger.iterate fn (encodeEntry <$> entries) s = (file.rangeLoop fn entries s, None).
Proof.
  intros HK Hall. revert s. induction Hall as [|[k v] rest Hv _ IH]; intros s; [done|].
  simpl in *. rewrite (byteToKey_keyToByte k HK).
  unfold badger.decodeFromBytes.
  destruct (serializable_decode v Hv) as [_ ->].
  destruct (fn k v s) as [[] s']; [apply IH|done].
Qed.

Lemma items_encoded p (m : gmap (key K) V) :
  supported K → holdsEntries p m →
  ∃ entries : list (key K * V),
    entries ≡ₚ map_to_list m ∧ engine.items (badger.db p) = encodeEntry <$> entries.
Proof.
  intros HK [Hdb Hm]. pose proof (keyBytes_Inj HK).
  assert (engine.items (badger.db p) ≡ₚ encodeEntry <$> map_to_list m) as Hperm.
  { unfold engine.items. rewrite merge_sort_Permutation, Hdb.
    rewrite map_to_list_kmap, map_to_list_fmap, <- list_fmap_compose by done.
    erewrite list_fmap_ext; [reflexivity|]. by intros _ [k v] _. }
  apply Permutation_map_inv in Hperm as (entries & Heq & Hperm).
  exists entries. split; [by symmetry|done].
Qed.

(** On a keyspace of data entries, the scan is a [range] loop over
    some enumeration of the entries. *)
Lemma badger_ForEach_range p m :
  supported K → holdsEntries p m →
  ∃ entries, entries ≡ₚ map_to_list m ∧
    ∀ S (fn : key K → V → S → bool * S) s,
      badger.ForEach fn p s = (file.rangeLoop fn entries s, None).
Proof.
  intros HK Hp. destruct (items_encoded p m HK Hp) as (entries & Hperm & Hitems).
  exists entries. split; [done|]. intros S fn s.
  unfold badger.ForEach, engine.View. rewrite Hitems, iterate_encoded; [done..|].
  destruct Hp as [_ Hm]. apply Forall_forall. intros [k v] Hin. simpl.
  apply (Hm k). apply elem_of_map_to_list. by rewrite <- Hperm.
Qed.

End badger_props.

(** * The claims *)



(** The same round trip on [uint64] keys, at the largest key. *)
Example store_then_get_uint64 :
  let k : key KUint64 := to_uint64 18446744073709551615 in
  badger.Get "" k (badger.Store k "value" demo.engineProvider).1 = ("value", None)
  ∧ keyBytes k = list_ascii_of_string "18446744073709551615".
Proof. split; vm_compute; reflexivity. Qed.

(** A key of a defined type is refused by the engine provider, which
    stores nothing. *)
Lemma badger_Store_defined_type (K : KeyType) (V : Type) (gob : badger.Gob V)
    (k : key K) (v : V) (p : badger.provider) :
  supported K = false → badger.Store k v p = (p, Some badger.errUnknownKeyType).
Proof. unfold badger.Store. by destruct K. Qed.

(** What holds of C1: the file provider reports NotFound for a missing
    key and touches nothing; on both providers a present key is deleted
    and [Get] then fails with NotFound. *)
Lemma remove_contract (K : KeyType) (V : Type) (codecs : file.Codecs K V)
    (gob : badger.Gob V) (zeroV : V) (k : key K) :
  (∀ (p : file.provider K V) (w : os.World),
     (entriesOf p !! k = None → file.Remove k p w = (p, w, Some NotFound))
     ∧ (is_Some (entriesOf p !! k) →
        ∃ p', file.Remove k p w = (p', (file.saveToFile p' w).1, (file.saveToFile p' w).2)
              ∧ entriesOf p' = delete k (entriesOf p)
              ∧ file.Get zeroV k p' = (zeroV, Some NotFound)))
  ∧ (supported K →
     ∀ p : badger.provider,
       ∃ p', badger.Remove k p = (p', None)
             ∧ badger.db p' = delete (keyBytes k) (badger.db p)
             ∧ badger.Get zeroV k p' = (zeroV, engineNotFound)
             ∧ failsNotFound engineNotFound).
Proof.
  split.
  - intros p w. split; [apply file_Remove_absent|].
    intros [v Hv]. eexists. split; [by apply (file_Remove_present k v)|].
    split; [done|]. apply file_Get_None. unfold entriesOf. simpl. apply lookup_delete_eq.
  - intros HK p. eexists. split; [by apply badger_Remove_eq|].
    split; [done|]. split; [|done].
    apply badger_Get_absent; [done|]. unfold absent. simpl. apply lookup_delete_eq.
Qed.

(** C1, where the engine provider departs from it.  [Remove] of a key
    the keyspace lacks leaves the provider as it was and returns nil,
    not NotFound: the engine's [Delete] does not look the key up. *)
Theorem badger_Remove_absent_no_error (K : KeyType) (k : key K) (p : badger.provider) :
  supported K → absent p k →
  badger.Remove k p = (p, None) ∧ ¬ failsNotFound (badger.Remove k p).2.
Proof.
  intros HK Hk. rewrite (badger_Remove_eq k p HK).
  rewrite delete_id by done. rewrite withDB_same. split; [done|].
  unfold failsNotFound. simpl. discriminate.
Qed.

Lemma badger_Remove_absent_no_error_witness :
  badger.Remove (K:=KString) "missing" demo.engineProvider = (demo.engineProvider, None)
  ∧ ¬ failsNotFound (badger.Remove (K:=KString) "missing" demo.engineProvider).2.
Proof.
  apply (badger_Remove_absent_no_error KString "missing" demo.engineProvider);
    reflexivity.
Defined.

(** A provider made from inline content: [New] touches no file, keeps
    the configuration and fixes one of the two formats. *)
Lemma file_New_inline (K : KeyType) (V : Type) (codecs : file.Codecs K V)
    (cfg : file.Config) (w w' : os.World) (p : file.provider K V) :
  file.Content cfg ≠ "" → file.New cfg w = (Some p, w', None) →
  w' = w ∧ file.cfg p = cfg ∧ (file.fileType p = file.yml ∨ file.fileType p = file.jsn).
Proof.
  intros Hc%String.eqb_neq. unfold file.New, file.Setup. rewrite Hc. simpl.
  destruct (file.json_Unmarshal _ _) as [d [e|]].
  - destruct (file.yaml_Unmarshal _ _) as [d' [e'|]]; [done|].
    simpl. rewrite Hc. simpl. intros [= <- <-]. auto.
  - simpl. rewrite Hc. simpl. intros [= <- <-]. auto.
Qed.

(** The save of such a provider goes to the path all the same:
    [saveToFile] never looks at the content. *)
Lemma file_Store_inline_writes (K : KeyType) (V : Type) (codecs : file.Codecs K V)
    (cfg : file.Config) (w0 w : os.World) (p : file.provider K V) (k : key K) (v : V)
    (bs : bytes) :
  file.Content cfg ≠ "" → file.New cfg w0 = (Some p, w, None) →
  file.Path cfg ∉ os.unwritable w →
  marshalled (withMaps p (<[k := v]> (entriesOf p)) (refsOf p)) = (bs, None) →
  file.Store k v p w =
    (withMaps p (<[k := v]> (entriesOf p)) (refsOf p),
     os.mkWorld (<[file.Path cfg := bs]> (os.files w)) (os.unwritable w), None).
Proof.
  intros Hc HNew Hpath Hbs.
  destruct (file_New_inline K V codecs cfg w0 w p Hc HNew) as (_ & Hcfg & Ht).
  rewrite file_Store_eq.
  rewrite (file_saveToFile_writes _ w bs) by done.
  simpl. rewrite Hcfg. unfold os.WriteFile. by rewrite decide_False.
Qed.

(** C2, where the code departs from it.  A provider made from the inline
    content [{}] with the path [db.json]: [New] leaves the file alone,
    and then [Store] and [Shutdown] each overwrite it. *)
Theorem inline_content_Store_overwrites_file :
  let cfg := file.mkConfig "db.json" "{}" in
  let w := os.mkWorld {[ "db.json" := list_ascii_of_string "old" ]} ∅ in
  ∃ (p p' : file.provider KString string) (w' w'' : os.World),
    file.New cfg w = (Some p, w, None)
    ∧ file.Store "k" "v" p w = (p', w', None)
    ∧ os.files w' !! "db.json" = Some (list_ascii_of_string "k: v;|")
    ∧ file.Shutdown p w = (w'', None)
    ∧ os.files w'' !! "db.json" = Some (list_ascii_of_string "|").
Proof.
  simpl. eexists _, _, _, _.
  split; [vm_compute; reflexivity|].
  split; [vm_compute; reflexivity|].
  split; [vm_compute; reflexivity|].
  split; vm_compute; reflexivity.
Qed.






Lemma demo_serializable (v : string) : serializable v.
Proof.
  exists (demo.mark :: list_ascii_of_string v). split; [done|].
  simpl. by rewrite string_of_list_ascii_of_string.
Qed.

Lemma engineTwo_holds : holdsEntries (K:=KString) engineTwo twoEntries.
Proof.
  split; [vm_compute; reflexivity|].
  intros k v _. apply demo_serializable.
Qed.


(** The entries a log lists are the entries of the map, each once. *)
Lemma visited_exactly_once {K V} (m : gmap (key K) V) (log : list (key K * V)) :
  log ≡ₚ map_to_list m → NoDup log ∧ ∀ k v, (k, v) ∈ log ↔ m !! k = Some v.
Proof.
  intros Hperm. split.
  - rewrite Hperm. apply NoDup_map_to_list.
  - intros k v. rewrite Hperm. apply elem_of_map_to_list.
Qed.

(** C7 as stated fails on the engine provider.  A reference shares the
    keyspace with the entries and the scan reaches it first: decoding its
    bytes as a value fails, [ForEach] returns that error, and the stored
    entry [("key", "value")] is never visited. *)
Lemma foreach_engine_stops_at_reference :
  ∃ p1 p2,
    badger.StoreReference (K:=KString) "a-ref" "key" demo.engineProvider = (p1, None)
    ∧ badger.Store (K:=KString) "key" "value" p1 = (p2, None)
    ∧ badger.Get (K:=KString) "" "key" p2 = ("value", None)
    ∧ badger.ForEach (K:=KString) (logging collect) p2 (tt, [])
      = ((tt, []), Some (errorString "gob: unexpected input"))
    ∧ ¬ ([] ≡ₚ [(("key" : key KString), "value")]).
Proof.
  eexists _, _.
  split; [vm_compute; reflexivity|].
  split; [vm_compute; reflexivity|].
  split; [vm_compute; reflexivity|].
  split; [vm_compute; reflexivity|].
  intros Hperm. by apply Permutation_nil_cons in Hperm.
Qed.

(** The same holds whatever the value codec does with the bytes of the
    reference: the log of the scan is never the stored entry alone. *)
Lemma foreach_engine_reference_any_codec (V : Type) (gob : badger.Gob V) (v : V) :
  serializable v →
  ∃ p1 p2,
    badger.StoreReference (K:=KString) "a-ref" "key" demo.engineProvider = (p1, None)
    ∧ badger.Store (K:=KString) "key" v p1 = (p2, None)
    ∧ ¬ ((badger.ForEach (K:=KString) (logging collect) p2 (tt, [])).1.2
          ≡ₚ [(("key" : key KString), v)]).
Proof.
  intros Hv. destruct (serializable_decode v Hv) as [Henc Hdec].
  eexists _, _. split; [reflexivity|].
  split; [by apply badger_Store_eq|].
  unfold badger.ForEach, engine.View. simpl.
  replace (engine.items _) with
    [(list_ascii_of_string "a-ref", list_ascii_of_string "key");
     (list_ascii_of_string "key", encodeValue v)] by (vm_compute; reflexivity).
  simpl. unfold badger.decodeFromBytes.
  destruct (badger.gob_Decode ["k"%char; "e"%char; "y"%char]) as [x [e|]]; simpl.
  - destruct (is_ e stopIterationErr); simpl;
      intros Hperm; by apply Permutation_nil_cons in Hperm.
  - rewrite Hdec. simpl. intros Hperm. apply Permutation_length in Hperm. done.
Qed.

(** C7, amended.  In the file provider, whatever order [range] yields
    the entries in, a visitor that always says "go on" is called on every
    stored entry exactly once, and a visitor that says "stop" ends the
    loop at that entry; [ForEach] returns no error either way.  In the
    engine provider the same holds when the keyspace holds data entries
    only. *)
Theorem foreach_visits_entries (K : KeyType) (V : Type) (codecs : file.Codecs K V)
    (gob : badger.Gob V) :
  (∀ (p : file.provider K V) (entries : list (key K * V)),
     file.rangeOrder (entriesOf p) entries →
     ∀ (S : Type) (fn : key K → V → S → bool * S) (s : S),
       ((∀ k v s, (fn k v s).1 = true) →
          ∃ s' log, file.ForEach (logging fn) entries p (s, []) = ((s', log), None)
                    ∧ log ≡ₚ map_to_list (entriesOf p))
       ∧ (∀ pre k v post,
            entries = (pre ++ (k, v) :: post)%list →
            continues fn pre s = true →
            (fn k v (file.rangeLoop fn pre s)).1 = false →
            file.ForEach (logging fn) entries p (s, [])
            = (((fn k v (file.rangeLoop fn pre s)).2, (pre ++ [(k, v)])%list), None)))
  ∧ (supported K →
     ∀ (p : badger.provider) (m : gmap (key K) V),
       holdsEntries p m →
       ∃ entries : list (key K * V),
         entries ≡ₚ map_to_list m ∧
         ∀ (S : Type) (fn : key K → V → S → bool * S) (s : S),
           ((∀ k v s, (fn k v s).1 = true) →
              ∃ s' log, badger.ForEach (logging fn) p (s, []) = ((s', log), None)
                        ∧ log ≡ₚ map_to_list m)
           ∧ (∀ pre k v post,
                entries = (pre ++ (k, v) :: post)%list →
                continues fn pre s = true →
                (fn k v (file.rangeLoop fn pre s)).1 = false →
                badger.ForEach (logging fn) p (s, [])
                = (((fn k v (file.rangeLoop fn pre s)).2, (pre ++ [(k, v)])%list), None))).
Proof.
  split.
  - intros p entries Horder S fn s. unfold file.ForEach. split.
    + intros Hfn. rewrite rangeLoop_logging_continues by by apply continues_always.
      by eexists _, _.
    + intros pre k v post -> Hpre Hstop. by rewrite rangeLoop_logging_stop.
  - intros HK p m Hp.
    destruct (badger_ForEach_range p m HK Hp) as (entries & Hperm & Hrange).
    exists entries. split; [done|]. intros S fn s. rewrite Hrange. split.
    + intros Hfn. rewrite rangeLoop_logging_continues by by apply continues_always.
      by eexists _, _.
    + intros pre k v post -> Hpre Hstop. by rewrite rangeLoop_logging_stop.
Qed.

Lemma foreach_visits_entries_witness :
  (∃ s' log,
     file.ForEach (K:=KString) (logging collect) (map_to_list twoEntries) fileTwo (tt, [])
     = ((s', log), None) ∧ log ≡ₚ map_to_list twoEntries)
  ∧ (∀ e post, map_to_list twoEntries = e :: post →
       file.ForEach (K:=KString) (logging stopAtOnce) (map_to_list twoEntries) fileTwo (tt, [])
       = ((tt, [e]), None))
  ∧ ∃ entries : list (key KString * string),
      entries ≡ₚ map_to_list twoEntries
      ∧ (∃ s' log,
           badger.ForEach (K:=KString) (logging collect) engineTwo (tt, []) = ((s', log), None)
           ∧ log ≡ₚ map_to_list twoEntries)
      ∧ (∀ e post, entries = e :: post →
           badger.ForEach (K:=KString) (logging stopAtOnce) engineTwo (tt, [])
           = ((tt, [e]), None)).
Proof.
  destruct (foreach_visits_entries KString string demo.codecs demo.gob) as [Hf Hb].
  assert (file.rangeOrder (entriesOf fileTwo) (map_to_list twoEntries)) as Horder
    by (unfold file.rangeOrder, entriesOf, fileTwo; simpl; reflexivity).
  split; [|split].
  - apply (Hf fileTwo _ Horder unit collect tt). done.
  - intros [k v] post Heq.
    apply (proj2 (Hf fileTwo _ Horder unit stopAtOnce tt) [] k v post Heq); done.
  - destruct (Hb I engineTwo twoEntries engineTwo_holds) as (entries & Hperm & Hfn).
    exists entries. split; [done|]. split.
    + apply (Hfn unit collect tt). done.
    + intros [k v] post Heq.
      apply (proj2 (Hfn unit stopAtOnce tt) [] k v post Heq); done.
Defined.

(** C8.  The selector hands the configuration to the engine provider's
    constructor whenever the engine configuration is there, to the file
    provider's constructor when only the file configuration is, and
    fails with its own error when neither is. *)
Theorem selector_priority (K : KeyType) (V : Type) (codecs : file.Codecs K V)
    (gob : badger.Gob V) (opener : badger.Opener) (w : os.World) :
  (∀ (b : badger.Config) (f : option file.Config),
     storage.GetKeyValueProviderFromConfig (K:=K) (V:=V) (storage.mkKeyValueConfig (Some b) f) w
     = (storage.ofBadger <$> (badger.New b).1, w, (badger.New b).2))
  ∧ (∀ f : file.Config,
       storage.GetKeyValueProviderFromConfig (K:=K) (V:=V) (storage.mkKeyValueConfig None (Some f)) w
       = (storage.ofFile <$> (file.New f w).1.1, (file.New f w).1.2, (file.New f w).2))
  ∧ storage.GetKeyValueProviderFromConfig (K:=K) (V:=V) (storage.mkKeyValueConfig None None) w
    = (None, w, Some (errorString "storage provider is not configured")).
Proof.
  split; [|split].
  - intros b f. unfold storage.GetKeyValueProviderFromConfig. simpl.
    by destruct (badger.New b).
  - intros f. unfold storage.GetKeyValueProviderFromConfig. simpl.
    by destruct (file.New f w) as [[??]?].
  - done.
Qed.

(** The selector at work: with both configurations the provider is the
    engine's, with the file configuration alone it is the file's. *)
Example selector_priority_run :
  let b := badger.mkConfig None true in
  let f := file.mkConfig "db.yaml" "" in
  storage.GetKeyValueProviderFromConfig (K:=KString) (V:=string)
    (storage.mkKeyValueConfig (Some b) (Some f)) demo.emptyWorld
  = (Some (storage.ofBadger (badger.mkProvider b ∅)), demo.emptyWorld, None)
  ∧ (storage.GetKeyValueProviderFromConfig (K:=KString) (V:=string)
       (storage.mkKeyValueConfig None (Some f)) demo.emptyWorld).1.1
    = Some (storage.ofFile (file.mkProvider f (file.mkData ∅ ∅) file.yml)).
Proof. split; vm_compute; reflexivity. Qed.

(** C9.  In the file provider [Remove] leaves the references as they
    are, so a reference to the removed key stays and dangles, and
    [RemoveReference] leaves the entries as they are. *)
Theorem remove_leaves_other_map (K : KeyType) (V : Type) (codecs : file.Codecs K V)
    (p : file.provider K V) (w : os.World) (k r : key K) :
  refsOf (file.Remove k p w).1.1 = refsOf p
  ∧ (∀ a, refsOf p !! a = Some k →
       refsOf (file.Remove k p w).1.1 !! a = Some k
       ∧ entriesOf (file.Remove k p w).1.1 !! k = None)
  ∧ entriesOf (file.RemoveReference r p w).1.1 = entriesOf p.
Proof.
  assert (refsOf (file.Remove k p w).1.1 = refsOf p
          ∧ entriesOf (file.Remove k p w).1.1 !! k = None) as [Hrefs Hgone].
  { destruct (entriesOf p !! k) as [v|] eqn:Hk.
    - rewrite (file_Remove_present k v p w Hk). simpl. split; [done|].
      unfold entriesOf. simpl. apply lookup_delete_eq.
    - by rewrite (file_Remove_absent k p w Hk). }
  split; [done|]. split.
  - intros a Ha. by rewrite Hrefs.
  - destruct (refsOf p !! r) as [t|] eqn:Hr.
    + by rewrite (file_RemoveReference_present r t p w Hr).
    + by rewrite (file_RemoveReference_absent r p w Hr).
Qed.

Lemma remove_leaves_other_map_witness :
  let p : file.provider KString string :=
    file.mkProvider (file.mkConfig "db.yaml" "")
      (file.mkData {[ "key" := "value" ]} {[ "ref" := "key" ]}) file.yml in
  refsOf (file.Remove (K:=KString) "key" p demo.emptyWorld).1.1 !! "ref" = Some "key"
  ∧ entriesOf (file.Remove (K:=KString) "key" p demo.emptyWorld).1.1 !! "key" = None.
Proof.
  intros p.
  apply (proj1 (proj2 (remove_leaves_other_map KString string demo.codecs p
                         demo.emptyWorld "key" "ref")) "ref").
  reflexivity.
Defined.

(** C10.  Every mutation of the file provider changes the maps first and
    saves afterwards, the save being that of the changed provider.  When
    the save fails the call returns its error, and the change stays in
    memory, where the next [Get] or [GetByReference] sees it. *)
Theorem failed_write_keeps_mutation (K : KeyType) (V : Type) (codecs : file.Codecs K V)
    (zeroV : V) (p : file.provider K V) (w : os.World) (k r t : key K) (v : V) :
  (∀ p' w' e,
     file.Store k v p w = (p', w', Some e) →
     file.saveToFile p' w = (w', Some e)
     ∧ entriesOf p' = <[k := v]> (entriesOf p)
     ∧ file.Get zeroV k p' = (v, None))
  ∧ (∀ p' w' e,
       is_Some (entriesOf p !! k) →
       file.Remove k p w = (p', w', Some e) →
       file.saveToFile p' w = (w', Some e)
       ∧ entriesOf p' = delete k (entriesOf p)
       ∧ file.Get zeroV k p' = (zeroV, Some NotFound))
  ∧ (∀ p' w' e,
       file.StoreReference r t p w = (p', w', Some e) →
       file.saveToFile p' w = (w', Some e)
       ∧ refsOf p' = <[r := t]> (refsOf p)
       ∧ file.GetByReference zeroV r p' = file.Get zeroV t p')
  ∧ (∀ p' w' e,
       is_Some (refsOf p !! r) →
       file.RemoveReference r p w = (p', w', Some e) →
       file.saveToFile p' w = (w', Some e)
       ∧ refsOf p' = delete r (refsOf p)
       ∧ file.GetByReference zeroV r p' = (zeroV, Some NotFound)).
Proof.
  split; [|split; [|split]].
  - intros p' w' e. rewrite file_Store_eq. intros [= <- <- He].
    split; [by rewrite <- He; destruct (file.saveToFile _ _)|].
    split; [done|]. apply file_Get_Some. unfold entriesOf. simpl. apply lookup_insert_eq.
  - intros p' w' e [v0 Hk]. rewrite (file_Remove_present k v0 p w Hk). intros [= <- <- He].
    split; [by rewrite <- He; destruct (file.saveToFile _ _)|].
    split; [done|]. apply file_Get_None. unfold entriesOf. simpl. apply lookup_delete_eq.
  - intros p' w' e. rewrite file_StoreReference_eq. intros [= <- <- He].
    split; [by rewrite <- He; destruct (file.saveToFile _ _)|].
    split; [done|]. apply file_GetByReference_alias. unfold refsOf. simpl.
    apply lookup_insert_eq.
  - intros p' w' e [t0 Hr]. rewrite (file_RemoveReference_present r t0 p w Hr).
    intros [= <- <- He].
    split; [by rewrite <- He; destruct (file.saveToFile _ _)|].
    split; [done|]. apply file_GetByReference_no_alias. unfold refsOf. simpl.
    apply lookup_delete_eq.
Qed.

Lemma failed_write_keeps_mutation_witness :
  (∃ p', file.Store (K:=KString) "new" "v" fileOne lockedWorld
           = (p', lockedWorld, Some os.ErrPermission)
         ∧ file.Get (K:=KString) "" "new" p' = ("v", None))
  ∧ (∃ p', file.Remove (K:=KString) "key" fileOne lockedWorld
             = (p', lockedWorld, Some os.ErrPermission)
           ∧ file.Get (K:=KString) "" "key" p' = ("", Some NotFound))
  ∧ (∃ p', file.StoreReference (K:=KString) "alias" "key" fileOne lockedWorld
             = (p', lockedWorld, Some os.ErrPermission)
           ∧ file.GetByReference (K:=KString) "" "alias" p' = ("value", None))
  ∧ (∃ p', file.RemoveReference (K:=KString) "ref" fileOne lockedWorld
             = (p', lockedWorld, Some os.ErrPermission)
           ∧ file.GetByReference (K:=KString) "" "ref" p' = ("", Some NotFound)).
Proof.
  destruct (failed_write_keeps_mutation KString string demo.codecs "" fileOne lockedWorld
              "new" "alias" "key" "v") as (HStore & _ & HStoreRef & _).
  destruct (failed_write_keeps_mutation KString string demo.codecs "" fileOne lockedWorld
              "key" "ref" "key" "v") as (_ & HRemove & _ & HRemoveRef).
  split; [|split; [|split]].
  - eexists. split; [vm_compute; reflexivity|].
    eapply HStore. vm_compute. reflexivity.
  - eexists. split; [vm_compute; reflexivity|].
    eapply HRemove; [by eexists|]. vm_compute. reflexivity.
  - eexists. split; [vm_compute; reflexivity|].
    etrans; [eapply HStoreRef; vm_compute; reflexivity|]. reflexivity.
  - eexists. split; [vm_compute; reflexivity|].
    eapply HRemoveRef; [by eexists|]. vm_compute. reflexivity.
Defined.

(** * Further properties of the code *)

(** ** Error taxonomy *)

Lemma is_joined (e t : error) :
  is_ (joinError [NotFound; e]) t = error_eqb (joinError [NotFound; e]) t
                                    || (is_ NotFound t || (is_ e t || false)).
Proof. reflexivity. Qed.

Lemma NewNotFound_Some (e : error) :
  errors.NewNotFound (Some e) = Some (joinError [NotFound; e]).
Proof. reflexivity. Qed.

Lemma mapError_hit (e : error) :
  is_ e ErrKeyNotFound = true → badger.mapError (Some e) = Some (joinError [NotFound; e]).
Proof. unfold badger.mapError, errors.Is. by intros ->. Qed.

Lemma mapError_miss (e : error) :
  is_ e ErrKeyNotFound = false → badger.mapError (Some e) = Some e.
Proof. unfold badger.mapError, errors.Is. by intros ->. Qed.

(** X1.  [mapError] keeps nil nil and never makes an error nil; whatever
    the error matched under [errors.Is] it still matches afterwards, so
    the engine's cause stays inspectable; an error that matches
    [ErrKeyNotFound] comes back matching [NotFound]; any other error
    comes back as it was. *)
Theorem mapError_classifies (err : option error) :
  (badger.mapError err = None ↔ err = None)
  ∧ (∀ t, errors.Is err t = true → errors.Is (badger.mapError err) t = true)
  ∧ (errors.Is err ErrKeyNotFound = true → failsNotFound (badger.mapError err))
  ∧ (errors.Is err ErrKeyNotFound = false → badger.mapError err = err).
Proof.
  destruct err as [e|]; [|by repeat split].
  destruct (is_ e ErrKeyNotFound) eqn:He.
  - rewrite (mapError_hit e He). split; [split; discriminate|].
    split; [|split; [intros _; reflexivity|]].
    + intros t Ht. unfold errors.Is in *. rewrite is_joined, Ht. by rewrite !orb_true_r.
    + unfold errors.Is. by rewrite He.
  - rewrite (mapError_miss e He). split; [done|]. split; [done|].
    split; [|done]. unfold errors.Is. by rewrite He.
Qed.

Lemma mapError_classifies_witness :
  errors.Is (badger.mapError (Some ErrKeyNotFound)) ErrKeyNotFound = true
  ∧ failsNotFound (badger.mapError (Some ErrKeyNotFound))
  ∧ badger.mapError (Some (errorString "disk full")) = Some (errorString "disk full").
Proof.
  destruct (mapError_classifies (Some ErrKeyNotFound)) as (_ & Hkeep & Hnf & _).
  destruct (mapError_classifies (Some (errorString "disk full"))) as (_ & _ & _ & Hsame).
  split; [by apply Hkeep|]. split; [by apply Hnf|]. by apply Hsame.
Defined.

(** X2.  [NewNotFound] never returns nil: with a nil parent it is the
    sentinel joined alone, and with any parent it matches [NotFound] and
    everything the parent matches. *)
Theorem NewNotFound_matches (parent : option error) :
  errors.Is (errors.NewNotFound parent) NotFound = true
  ∧ errors.NewNotFound parent ≠ None
  ∧ ∀ t, errors.Is parent t = true → errors.Is (errors.NewNotFound parent) t = true.
Proof.
  destruct parent as [e|]; [|by repeat split].
  rewrite NewNotFound_Some. split; [done|]. split; [done|]. intros t Ht.
  unfold errors.Is in *. rewrite is_joined, Ht. by rewrite !orb_true_r.
Qed.

Lemma NewNotFound_matches_witness :
  errors.Is (errors.NewNotFound (Some (joinError [errorString "a"; ErrKeyNotFound])))
    ErrKeyNotFound = true.
Proof.
  apply (NewNotFound_matches (Some (joinError [errorString "a"; ErrKeyNotFound]))).
  reflexivity.
Defined.

(** ** Engine keys *)

Lemma to_uint_nonnil (n : N) : N.to_uint n ≠ Decimal.Nil.
Proof. destruct n as [|q]; simpl; [discriminate|]. apply DecimalPos.Unsigned.to_uint_nonnil. Qed.

Lemma ParseUint_decimal (n : N) :
  strconv.ParseUint (decimal n) =
    match decide (n < 2 ^ 64)%N with
    | left H => (dexist n H, None)
    | right _ => (to_uint64 (2 ^ 64 - 1), Some strconv.ErrRange)
    end.
Proof.
  unfold strconv.ParseUint, decimal.
  rewrite NilZero.usu by apply to_uint_nonnil.
  by rewrite DecimalN.Unsigned.of_to.
Qed.

(** X3.  For the key types the engine provider supports, [keyToByte]
    never fails, [byteToKey] gives the key back from its bytes, and two
    keys with the same bytes are the same key.  A [uint64] key is its
    decimal numeral; a [string] key is its own bytes, and there every
    byte string decodes and encodes back to itself. *)
Theorem key_encoding_roundtrip (K : KeyType) (k : key K) :
  supported K →
  badger.keyToByte k = (keyBytes k, None)
  ∧ badger.byteToKey (keyBytes k) = (k, None)
  ∧ (∀ k' : key K, keyBytes k = keyBytes k' → k = k')
  ∧ (∀ n : uint64, keyBytes (K:=KUint64) n = list_ascii_of_string (decimal (uint64_val n)))
  ∧ (∀ b : bytes, ∃ s : key KString,
       badger.byteToKey (K:=KString) b = (s, None) ∧ keyBytes s = b).
Proof.
  intros HK. split; [by apply keyToByte_supported|].
  split; [by apply byteToKey_keyToByte|].
  split; [intros k'; by apply keyBytes_inj|].
  split; [done|].
  intros b. exists (string_of_list_ascii b). split; [done|].
  unfold keyBytes. simpl. apply list_ascii_of_string_of_list_ascii.
Qed.

Lemma key_encoding_roundtrip_witness :
  badger.byteToKey (K:=KUint64) (list_ascii_of_string "42") = (to_uint64 42, None)
  ∧ keyBytes (K:=KUint64) (to_uint64 42) = list_ascii_of_string "42".
Proof.
  destruct (key_encoding_roundtrip KUint64 (to_uint64 42) I) as (_ & Hback & _ & Hdec & _).
  split; [exact Hback|]. apply (Hdec (to_uint64 42)).
Defined.

(** X4.  Decoding a [uint64] key is bounded: the decimal numeral of a
    number below [2^64] decodes to that number, the numeral of any
    larger number and the empty byte string are refused with the
    provider's own conversion error and the zero key. *)
Theorem byteToKey_uint64_bounds (n : N) :
  ((n < 2 ^ 64)%N →
     ∃ k : uint64, uint64_val k = n
       ∧ badger.byteToKey (K:=KUint64) (list_ascii_of_string (decimal n)) = (k, None))
  ∧ ((2 ^ 64 ≤ n)%N →
     badger.byteToKey (K:=KUint64) (list_ascii_of_string (decimal n))
     = (zeroKey KUint64, Some (errorString "failed to convert bytes to uint64")))
  ∧ badger.byteToKey (K:=KUint64) []
    = (zeroKey KUint64, Some (errorString "failed to convert bytes to uint64")).
Proof.
  unfold badger.byteToKey. rewrite string_of_list_ascii_of_string, ParseUint_decimal.
  split; [|split; [|done]].
  - intros Hlt. destruct (decide _) as [H|H]; [|done]. by exists (dexist n H).
  - intros Hge. destruct (decide _) as [H|H]; [|done]. exfalso. by apply N.lt_nge in H.
Qed.

Lemma byteToKey_uint64_bounds_witness :
  (∃ k : uint64, uint64_val k = 18446744073709551615%N
     ∧ badger.byteToKey (K:=KUint64) (list_ascii_of_string "18446744073709551615") = (k, None))
  ∧ badger.byteToKey (K:=KUint64) (list_ascii_of_string "18446744073709551616")
    = (zeroKey KUint64, Some (errorString "failed to convert bytes to uint64")).
Proof.
  split.
  - apply (proj1 (byteToKey_uint64_bounds 18446744073709551615)). reflexivity.
  - apply (proj1 (proj2 (byteToKey_uint64_bounds 18446744073709551616))).
    discriminate.
Defined.

(** X5.  With a key type that is only defined from [string] or [uint64],
    every operation of the engine provider that takes a key fails with
    the unknown-key-type error, returns the zero value and leaves the
    keyspace as it was. *)
Theorem badger_defined_key_type_refused (K : KeyType) (V : Type) (gob : badger.Gob V)
    (zeroV : V) (k t : key K) (v : V) (p : badger.provider) :
  supported K = false →
  badger.Store k v p = (p, Some badger.errUnknownKeyType)
  ∧ badger.Get zeroV k p = (zeroV, Some badger.errUnknownKeyType)
  ∧ badger.Remove k p = (p, Some badger.errUnknownKeyType)
  ∧ badger.StoreReference k t p = (p, Some badger.errUnknownKeyType)
  ∧ badger.RemoveReference k p = (p, Some badger.errUnknownKeyType)
  ∧ badger.GetByReference zeroV k p = (zeroV, Some badger.errUnknownKeyType)
  ∧ (∀ keys, badger.GetMultiple zeroV (k :: keys) p = ([], Some badger.errUnknownKeyType)).
Proof.
  intros HK.
  unfold badger.Store, badger.Get, badger.Remove, badger.StoreReference,
    badger.RemoveReference, badger.GetByReference, badger.GetMultiple.
  simpl. unfold badger.Get. destruct K; try done.
Qed.

Lemma badger_defined_key_type_refused_witness :
  badger.Store (K:=KDefinedString) "key" "value" demo.engineProvider
  = (demo.engineProvider, Some badger.errUnknownKeyType)
  ∧ badger.Get (K:=KDefinedString) "" "key" demo.engineProvider
    = ("", Some badger.errUnknownKeyType).
Proof.
  destruct (badger_defined_key_type_refused KDefinedString string demo.gob ""
              "key" "key" "value" demo.engineProvider eq_refl) as (HStore & HGet & _).
  split; [exact HStore | exact HGet].
Defined.

(** ** The snapshot file provider, further *)

(** X6.  What a write of the file provider leaves alone.  [Store]
    changes the entry of its key only: every other key reads as before
    and the references, the configuration and the format stay.
    [StoreReference] changes the alias only: the entries stay, so every
    [Get] reads as before, and every other alias resolves as before. *)
Theorem file_writes_frame (K : KeyType) (V : Type) (codecs : file.Codecs K V) (zeroV : V)
    (p : file.provider K V) (w : os.World) (k t : key K) (v : V) :
  (let p' := (file.Store k v p w).1.1 in
   (∀ k', k' ≠ k → file.Get zeroV k' p' = file.Get zeroV k' p)
   ∧ refsOf p' = refsOf p
   ∧ (∀ r, file.GetByReference zeroV r p' =
           match refsOf p !! r with
           | Some k' => file.Get zeroV k' p'
           | None => (zeroV, Some NotFound)
           end)
   ∧ file.cfg p' = file.cfg p ∧ file.fileType p' = file.fileType p)
  ∧ (let p' := (file.StoreReference k t p w).1.1 in
     (∀ k', file.Get zeroV k' p' = file.Get zeroV k' p)
     ∧ (∀ r, r ≠ k → file.GetByReference zeroV r p' = file.GetByReference zeroV r p)
     ∧ entriesOf p' = entriesOf p
     ∧ file.cfg p' = file.cfg p ∧ file.fileType p' = file.fileType p).
Proof.
  split.
  - rewrite file_Store_eq. simpl. split; [|split; [done|split; [|done]]].
    + intros k' Hne. unfold file.Get. simpl. by rewrite lookup_insert_ne.
    + intros r. unfold file.GetByReference, file.Get, refsOf. simpl.
      by destruct (file.References (file.data_ p) !! r).
  - rewrite file_StoreReference_eq. simpl. split; [done|]. split; [|done].
    intros r Hne. unfold file.GetByReference. simpl. by rewrite lookup_insert_ne.
Qed.

Lemma file_writes_frame_witness :
  file.Get (K:=KString) "" "key"
    (file.Store (K:=KString) "other" "v" fileOne demo.emptyWorld).1.1
  = ("value", None)
  ∧ file.GetByReference (K:=KString) ""  "ref"
      (file.StoreReference (K:=KString) "alias" "nothing" fileOne demo.emptyWorld).1.1
    = ("value", None).
Proof.
  destruct (file_writes_frame KString string demo.codecs "" fileOne demo.emptyWorld
              "other" "key" "v") as [(HStore & _) _].
  destruct (file_writes_frame KString string demo.codecs "" fileOne demo.emptyWorld
              "alias" "nothing" "v") as [_ (_ & HRef & _)].
  split.
  - etrans; [apply HStore; discriminate|]. reflexivity.
  - etrans; [apply HRef; discriminate|]. reflexivity.
Defined.


(** *** What a save leaves in the file *)

Lemma file_saveToFile_ok {K V} `{!file.Codecs K V} (p : file.provider K V) (w w' : os.World) :
  file.saveToFile p w = (w', None) →
  ∃ bs, marshalled p = (bs, None)
        ∧ (file.Path (file.cfg p) ∉ os.unwritable w)
        ∧ w' = os.mkWorld (<[file.Path (file.cfg p) := bs]> (os.files w)) (os.unwritable w).
Proof.
  unfold file.saveToFile, marshalled, os.WriteFile.
  replace (file.key_is_int K) with false by (by destruct K).
  destruct (String.eqb (file.fileType p) file.yml).
  - destruct (file.yaml_Marshal _) as [bs [e|]]; [done|].
    case_decide; [done|]. intros [= <-]. by exists bs.
  - destruct (String.eqb (file.fileType p) file.jsn); [|done].
    destruct (file.json_MarshalIndent _) as [bs [e|]]; [done|].
    case_decide; [done|]. intros [= <-]. by exists bs.
Qed.

(** X8.  After a mutation of the file provider that reports no error,
    the file at the configured path holds the document marshalled from
    the maps as they are after the mutation, and no other file has
    changed.  This holds for [Store], [Remove], [StoreReference] and
    [RemoveReference] alike. *)
Theorem file_mutation_mirrors (K : KeyType) (V : Type) (codecs : file.Codecs K V)
    (p p' : file.provider K V) (w w' : os.World) (k t : key K) (v : V) :
  file.Store k v p w = (p', w', None)
  ∨ file.Remove k p w = (p', w', None)
  ∨ file.StoreReference k t p w = (p', w', None)
  ∨ file.RemoveReference k p w = (p', w', None) →
  ∃ bs, marshalled p' = (bs, None)
        ∧ os.files w' !! file.Path (file.cfg p) = Some bs
        ∧ (∀ name, name ≠ file.Path (file.cfg p) → os.files w' !! name = os.files w !! name)
        ∧ os.unwritable w' = os.unwritable w.
Proof.
  assert (∀ q : file.provider K V, file.cfg q = file.cfg p →
            file.saveToFile q w = (w', None) →
            ∃ bs, marshalled q = (bs, None)
                  ∧ os.files w' !! file.Path (file.cfg p) = Some bs
                  ∧ (∀ name, name ≠ file.Path (file.cfg p) →
                       os.files w' !! name = os.files w !! name)
                  ∧ os.unwritable w' = os.unwritable w) as Hsave.
  { intros q Hcfg Hq. apply file_saveToFile_ok in Hq as (bs & Hbs & _ & ->).
    exists bs. rewrite Hcfg. simpl. split; [done|].
    split; [apply lookup_insert_eq|]. split; [|done].
    intros name Hne. by rewrite lookup_insert_ne. }
  intros [H|[H|[H|H]]].
  - rewrite file_Store_eq in H. injection H as <- Hw He.
    apply Hsave; [done|]. rewrite <- Hw, <- He. by destruct (file.saveToFile _ _).
  - destruct (entriesOf p !! k) as [v0|] eqn:Hk.
    + rewrite (file_Remove_present k v0 p w Hk) in H. injection H as <- Hw He.
      apply Hsave; [done|]. rewrite <- Hw, <- He. by destruct (file.saveToFile _ _).
    + by rewrite (file_Remove_absent k p w Hk) in H.
  - rewrite file_StoreReference_eq in H. injection H as <- Hw He.
    apply Hsave; [done|]. rewrite <- Hw, <- He. by destruct (file.saveToFile _ _).
  - destruct (refsOf p !! k) as [t0|] eqn:Hk.
    + rewrite (file_RemoveReference_present k t0 p w Hk) in H. injection H as <- Hw He.
      apply Hsave; [done|]. rewrite <- Hw, <- He. by destruct (file.saveToFile _ _).
    + by rewrite (file_RemoveReference_absent k p w Hk) in H.
Qed.

Lemma file_mutation_mirrors_witness :
  ∃ bs, marshalled (file.Store (K:=KString) "k" "v" demo.fileProvider demo.emptyWorld).1.1
        = (bs, None)
        ∧ os.files (file.Store (K:=KString) "k" "v" demo.fileProvider demo.emptyWorld).1.2
            !! "db.yaml" = Some bs.
Proof.
  destruct (file_mutation_mirrors KString string demo.codecs demo.fileProvider
              (file.Store (K:=KString) "k" "v" demo.fileProvider demo.emptyWorld).1.1
              demo.emptyWorld
              (file.Store (K:=KString) "k" "v" demo.fileProvider demo.emptyWorld).1.2
              "k" "k" "v") as (bs & Hbs & Hfile & _).
  - left. vm_compute. reflexivity.
  - exists bs. split; [exact Hbs | exact Hfile].
Defined.

(** *** Construction *)

Lemma list_ascii_of_string_app (s1 s2 : string) :
  list_ascii_of_string (s1 +:+ s2) = (list_ascii_of_string s1 ++ list_ascii_of_string s2)%list.
Proof. induction s1 as [|c s1 IH]; simpl; [done|]. by rewrite IH. Qed.

Lemma ext_scan_plain (l rest acc : bytes) :
  Forall (λ c, Ascii.eqb c "/" = false ∧ Ascii.eqb c "." = false) l →
  file.ext_scan (l ++ "."%char :: rest) acc = ("."%char :: rev l ++ acc)%list.
Proof.
  intros Hl. revert acc. induction Hl as [|c l [Hs Hd] _ IH]; intros acc; simpl; [done|].
  rewrite Hs, Hd, IH. by rewrite <- app_assoc.
Qed.

Lemma Ext_plain (stem e : string) :
  plainName e → file.Ext (stem +:+ String "." e) = String "." e.
Proof.
  intros He. unfold file.Ext. rewrite list_ascii_of_string_app. simpl.
  rewrite rev_app_distr. simpl. rewrite <- app_assoc. simpl.
  rewrite ext_scan_plain by by apply Forall_rev.
  rewrite rev_involutive, app_nil_r. simpl.
  by rewrite string_of_list_ascii_of_string.
Qed.

(** X9.  The format [New] picks for a path depends on the extension of
    its last element only, whatever precedes it and in whatever case it
    is written: [yaml] and [yml] give the document format, [json] the
    compact one, and any other extension gives none. *)
Theorem extension_selects_format (stem e : string) :
  plainName e →
  extensionFormat (stem +:+ String "." e) =
    if String.eqb (file.ToLower e) "yaml" || String.eqb (file.ToLower e) "yml"
    then Some file.yml
    else if String.eqb (file.ToLower e) "json" then Some file.jsn
    else None.
Proof.
  intros He. unfold extensionFormat. by rewrite (Ext_plain stem e He).
Qed.

Lemma extension_selects_format_witness :
  extensionFormat "/var/data.d/users.YAML" = Some file.yml
  ∧ extensionFormat "users.Json" = Some file.jsn
  ∧ extensionFormat "users.json.bak" = None.
Proof.
  split; [|split].
  - apply (extension_selects_format "/var/data.d/users" "YAML"). repeat constructor.
  - apply (extension_selects_format "users" "Json"). repeat constructor.
  - apply (extension_selects_format "users.json" "bak"). repeat constructor.
Defined.

Lemma extensionFormat_cases (path : string) (t : file.Type_) :
  extensionFormat path = Some t → t = file.yml ∨ t = file.jsn.
Proof. unfold extensionFormat. repeat case_match; naive_solver. Qed.

Lemma file_New_path {K V} `{!file.Codecs K V} (cfg : file.Config) (w : os.World) :
  file.Content cfg = "" →
  file.New (K:=K) (V:=V) cfg w =
    match extensionFormat (file.Path cfg) with
    | None => (None, w, Some (errorString
                 "unsupported file format: only .json, .yaml, and .yml are supported"))
    | Some t =>
        match file.Setup (file.mkProvider cfg noData t) w with
        | (_, w', Some err) => (None, w', Some err)
        | (p', w', None) => (Some p', w', None)
        end
    end.
Proof.
  intros Hc. unfold file.New, extensionFormat. rewrite Hc. simpl.
  destruct (_ || _); [done|]. by destruct (String.eqb _ ".json").
Qed.

Lemma file_New_existing {K V} `{!file.Codecs K V} (cfg : file.Config) (t : file.Type_)
    (w : os.World) (bs : bytes) :
  file.Content cfg = "" → extensionFormat (file.Path cfg) = Some t →
  os.files w !! file.Path cfg = Some bs →
  file.New (K:=K) (V:=V) cfg w =
    match unmarshalled t bs noData with
    | (d, None) => (Some (file.mkProvider cfg d t), w, None)
    | (_, Some err) => (None, w, Some err)
    end.
Proof.
  intros Hc Ht Hbs. rewrite (file_New_path cfg w Hc), Ht.
  unfold file.Setup, os.Stat, os.ReadFile, unmarshalled. simpl. rewrite Hc, Hbs. simpl.
  destruct (extensionFormat_cases _ _ Ht) as [-> | ->]; simpl.
  - by destruct (file.yaml_Unmarshal bs noData) as [d [e|]].
  - by destruct (file.json_Unmarshal bs noData) as [d [e|]].
Qed.

(** X10.  [New] on a configuration without inline content and with a
    path of a supported extension.  When no file is there it creates an
    empty one and returns a provider with empty maps, or fails with the
    write error when the file cannot be created.  When the file is there
    it is left as it is and decoded, in the format of the extension, into
    the maps of the provider; a decoding error fails the construction. *)
Theorem file_New_from_path (K : KeyType) (V : Type) (codecs : file.Codecs K V)
    (cfg : file.Config) (t : file.Type_) (w : os.World) :
  file.Content cfg = "" → extensionFormat (file.Path cfg) = Some t →
  (os.files w !! file.Path cfg = None → file.Path cfg ∉ os.unwritable w →
     file.New (K:=K) (V:=V) cfg w
     = (Some (file.mkProvider cfg noData t),
        os.mkWorld (<[file.Path cfg := []]> (os.files w)) (os.unwritable w), None))
  ∧ (os.files w !! file.Path cfg = None → file.Path cfg ∈ os.unwritable w →
       file.New (K:=K) (V:=V) cfg w = (None, w, Some os.ErrPermission))
  ∧ (∀ bs, os.files w !! file.Path cfg = Some bs →
       file.New (K:=K) (V:=V) cfg w =
         match unmarshalled t bs noData with
         | (d, None) => (Some (file.mkProvider cfg d t), w, None)
         | (_, Some err) => (None, w, Some err)
         end).
Proof.
  intros Hc Ht. rewrite (file_New_path cfg w Hc), Ht.
  unfold file.Setup, os.Stat, os.ReadFile, os.WriteFile, unmarshalled. simpl. rewrite Hc. simpl.
  split; [|split].
  - intros -> Hw. simpl. by rewrite decide_False.
  - intros -> Hw. simpl. by rewrite decide_True.
  - intros bs ->. destruct (extensionFormat_cases _ _ Ht) as [-> | ->]; simpl.
    + by destruct (file.yaml_Unmarshal bs noData) as [d [e|]].
    + by destruct (file.json_Unmarshal bs noData) as [d [e|]].
Qed.

Lemma file_New_from_path_witness :
  file.New (K:=KString) (V:=string) (file.mkConfig "db.yaml" "") demo.emptyWorld
  = (Some demo.fileProvider, os.mkWorld {[ "db.yaml" := [] ]} ∅, None)
  ∧ file.New (K:=KString) (V:=string) (file.mkConfig "db.yaml" "") lockedWorld
    = (None, lockedWorld, Some os.ErrPermission)
  ∧ file.New (K:=KString) (V:=string) (file.mkConfig "db.yaml" "")
      (os.mkWorld {[ "db.yaml" := list_ascii_of_string "{}" ]} ∅)
    = (Some demo.fileProvider, os.mkWorld {[ "db.yaml" := list_ascii_of_string "{}" ]} ∅, None).
Proof.
  pose proof (λ w, file_New_from_path KString string demo.codecs
                     (file.mkConfig "db.yaml" "") file.yml w eq_refl eq_refl) as H.
  split; [|split].
  - etrans; [apply (proj1 (H demo.emptyWorld)); [reflexivity|simpl; set_solver]|].
    reflexivity.
  - apply (proj1 (proj2 (H lockedWorld))); [reflexivity|]. simpl. set_solver.
  - etrans; [apply (proj2 (proj2 (H _)) (list_ascii_of_string "{}")); reflexivity|].
    reflexivity.
Defined.

(** X11.  [New] on a configuration without inline content fails when
    the extension of the path is none of the three, with the
    unsupported-format error, and touches no file. *)
Theorem file_New_unsupported_extension (K : KeyType) (V : Type) (codecs : file.Codecs K V)
    (cfg : file.Config) (w : os.World) :
  file.Content cfg = "" → extensionFormat (file.Path cfg) = None →
  file.New (K:=K) (V:=V) cfg w
  = (None, w, Some (errorString
       "unsupported file format: only .json, .yaml, and .yml are supported")).
Proof. intros Hc Ht. by rewrite (file_New_path cfg w Hc), Ht. Qed.

Lemma file_New_unsupported_extension_witness :
  file.New (K:=KString) (V:=string) (file.mkConfig "users.yaml/notes" "") demo.emptyWorld
  = (None, demo.emptyWorld, Some (errorString
       "unsupported file format: only .json, .yaml, and .yml are supported")).
Proof.
  apply (file_New_unsupported_extension KString string demo.codecs
           (file.mkConfig "users.yaml/notes" "") demo.emptyWorld); reflexivity.
Defined.

(** X12.  Every provider [New] returns carries the configuration it was
    made from and one of the two formats, and the four mutations keep
    both.  So the unsupported-format exit of [saveToFile] is never taken
    for such a provider: its save marshals the maps and writes them to
    the configured path, or returns the marshalling error. *)
Theorem file_New_format_invariant (K : KeyType) (V : Type) (codecs : file.Codecs K V)
    (cfg : file.Config) (w w' : os.World) (p : file.provider K V) :
  file.New cfg w = (Some p, w', None) →
  file.cfg p = cfg
  ∧ (file.fileType p = file.yml ∨ file.fileType p = file.jsn)
  ∧ (file.Content cfg = "" → extensionFormat (file.Path cfg) = Some (file.fileType p))
  ∧ ∀ (k t : key K) (v : V) (w1 : os.World) (q : file.provider K V),
      q = p ∨ q = (file.Store k v p w1).1.1 ∨ q = (file.Remove k p w1).1.1
      ∨ q = (file.StoreReference k t p w1).1.1 ∨ q = (file.RemoveReference k p w1).1.1 →
      file.cfg q = cfg ∧ file.fileType q = file.fileType p
      ∧ ∀ w2, file.saveToFile q w2 =
                match marshalled q with
                | (_, Some err) => (w2, Some err)
                | (bs, None) => os.WriteFile (file.Path cfg) bs w2
                end.
Proof.
  intros HNew.
  assert (file.cfg p = cfg ∧ (file.fileType p = file.yml ∨ file.fileType p = file.jsn)
          ∧ (file.Content cfg = "" → extensionFormat (file.Path cfg) = Some (file.fileType p)))
    as (Hcfg & Htype & Hext).
  { destruct (String.eqb (file.Content cfg) "") eqn:Hc.
    - apply String.eqb_eq in Hc. rewrite (file_New_path cfg w Hc) in HNew.
      destruct (extensionFormat (file.Path cfg)) as [t|] eqn:Ht; [|done].
      pose proof (extensionFormat_cases _ _ Ht) as Hcases.
      revert HNew. unfold file.Setup, os.Stat, os.ReadFile, os.WriteFile. simpl.
      rewrite Hc. simpl.
      destruct (os.files w !! file.Path cfg) as [bs|].
      + destruct Hcases as [-> | ->]; simpl.
        * destruct (file.yaml_Unmarshal bs noData) as [d [e|]]; [done|].
          intros [= <- _]. simpl. auto.
        * destruct (file.json_Unmarshal bs noData) as [d [e|]]; [done|].
          intros [= <- _]. simpl. auto.
      + simpl. case_decide; [done|]. intros [= <- _]. simpl. auto.
    - apply String.eqb_neq in Hc.
      destruct (file_New_inline K V codecs cfg w w' p Hc HNew) as (_ & ? & ?).
      split; [done|]. split; [done|]. by intros. }
  split; [done|]. split; [done|]. split; [done|].
  intros k t v w1 q Hq.
  assert (file.cfg q = file.cfg p ∧ file.fileType q = file.fileType p) as [Hqc Hqt].
  { destruct Hq as [-> | [-> | [-> | [-> | ->]]]].
    - done.
    - by rewrite file_Store_eq.
    - destruct (entriesOf p !! k) as [v0|] eqn:Hk.
      + by rewrite (file_Remove_present k v0 p w1 Hk).
      + by rewrite (file_Remove_absent k p w1 Hk).
    - by rewrite file_StoreReference_eq.
    - destruct (refsOf p !! k) as [t0|] eqn:Hk.
      + by rewrite (file_RemoveReference_present k t0 p w1 Hk).
      + by rewrite (file_RemoveReference_absent k p w1 Hk). }
  split; [congruence|]. split; [done|]. intros w2.
  unfold file.saveToFile, marshalled.
  replace (file.key_is_int K) with false by (by destruct K).
  rewrite Hqt, Hqc, Hcfg. destruct Htype as [-> | ->]; simpl.
  - by destruct (file.yaml_Marshal _) as [bs [e|]].
  - by destruct (file.json_MarshalIndent _) as [bs [e|]].
Qed.

Lemma file_New_format_invariant_witness :
  file.saveToFile (K:=KString)
    (file.Store (K:=KString) "k" "v" demo.fileProvider demo.emptyWorld).1.1 lockedWorld
  = os.WriteFile "db.yaml" (list_ascii_of_string "k: v;|") lockedWorld.
Proof.
  destruct (file_New_format_invariant KString string demo.codecs
              (file.mkConfig "db.yaml" "") demo.emptyWorld
              (os.mkWorld {[ "db.yaml" := [] ]} ∅) demo.fileProvider)
    as (_ & _ & _ & Hq); [vm_compute; reflexivity|].
  destruct (Hq "k" "k" "v" demo.emptyWorld
              (file.Store (K:=KString) "k" "v" demo.fileProvider demo.emptyWorld).1.1)
    as (_ & _ & Hsave); [right; by left|].
  etrans; [apply Hsave|]. reflexivity.
Defined.

(** X13.  Closing and reopening.  After a [Shutdown] that reports no
    error, [New] on the same configuration and the world the shutdown
    left gives the provider back, maps included, and changes nothing,
    provided the decoder of the format reads the written document back
    into the maps it was made from. *)
Theorem file_reopen (K : KeyType) (V : Type) (codecs : file.Codecs K V)
    (cfg : file.Config) (p : file.provider K V) (w w' : os.World) :
  file.Content cfg = "" →
  file.cfg p = cfg →
  extensionFormat (file.Path cfg) = Some (file.fileType p) →
  file.Shutdown p w = (w', None) →
  (∀ bs, marshalled p = (bs, None) →
         unmarshalled (file.fileType p) bs noData = (file.data_ p, None)) →
  file.New cfg w' = (Some p, w', None).
Proof.
  intros Hc Hcfg Ht HShut Hcodec. unfold file.Shutdown in HShut.
  apply file_saveToFile_ok in HShut as (bs & Hbs & _ & ->).
  rewrite (file_New_existing cfg (file.fileType p) _ bs Hc Ht)
    by (simpl; rewrite Hcfg; apply lookup_insert_eq).
  rewrite (Hcodec bs Hbs). destruct p; simpl in *. by subst.
Qed.

Lemma file_reopen_witness :
  ∃ w', @file.Shutdown KString string lines.codecs fileOne demo.emptyWorld = (w', None)
        ∧ @file.New KString string lines.codecs (file.mkConfig "db.yaml" "") w'
          = (Some fileOne, w', None).
Proof.
  eexists. split; [vm_compute; reflexivity|].
  apply (file_reopen KString string lines.codecs (file.mkConfig "db.yaml" "") fileOne
           demo.emptyWorld); try reflexivity.
  intros bs Hbs. vm_compute in Hbs. injection Hbs as <-. vm_compute. reflexivity.
Defined.

(** ** The embedded engine provider, further *)

Lemma badger_Get_same_slot {K V} `{!badger.Gob V} (zeroV : V) (k : key K)
    (p q : badger.provider) :
  badger.db p !! keyBytes k = badger.db q !! keyBytes k →
  badger.Get zeroV k p = badger.Get zeroV k q.
Proof.
  unfold badger.Get, engine.View, engine.Get, keyBytes.
  destruct (badger.keyToByte k) as [kb [e|]]; [done|]. simpl. by intros ->.
Qed.

(** X14.  What a write of the engine provider leaves alone.  For a
    supported key type, [Store], [Remove], [StoreReference] and
    [RemoveReference] on one key leave [Get] of every other key as it
    was: distinct keys never share an engine key. *)
Theorem badger_writes_frame (K : KeyType) (V : Type) (gob : badger.Gob V) (zeroV : V)
    (p : badger.provider) (k k' t : key K) (v : V) :
  supported K → k' ≠ k →
  badger.Get zeroV k' (badger.Store k v p).1 = badger.Get zeroV k' p
  ∧ badger.Get zeroV k' (badger.Remove k p).1 = badger.Get zeroV k' p
  ∧ badger.Get zeroV k' (badger.StoreReference k t p).1 = badger.Get zeroV k' p
  ∧ badger.Get zeroV k' (badger.RemoveReference k p).1 = badger.Get zeroV k' p.
Proof.
  intros HK Hne.
  assert (keyBytes k ≠ keyBytes k') as Hkb by (intros Heq; by apply keyBytes_inj in Heq).
  split; [|split; [|split]]; apply badger_Get_same_slot.
  - unfold badger.Store, badger.encodeToBytes. rewrite (keyToByte_supported k HK).
    destruct (badger.gob_Encode v) as [b [e|]]; [done|]. simpl. by rewrite lookup_insert_ne.
  - rewrite (badger_Remove_eq k p HK). simpl. by rewrite lookup_delete_ne.
  - rewrite (badger_StoreReference_eq k t p HK). simpl. by rewrite lookup_insert_ne.
  - rewrite (badger_RemoveReference_eq k p HK). simpl. by rewrite lookup_delete_ne.
Qed.

Lemma badger_writes_frame_witness :
  badger.Get (K:=KUint64) "" (to_uint64 1)
    (badger.Store (K:=KUint64) (to_uint64 10) "ten"
       (badger.Store (K:=KUint64) (to_uint64 1) "one" demo.engineProvider).1).1
  = ("one", None).
Proof.
  etrans.
  - apply (badger_writes_frame KUint64 string demo.gob ""
             (badger.Store (K:=KUint64) (to_uint64 1) "one" demo.engineProvider).1
             (to_uint64 10) (to_uint64 1) (to_uint64 0) "ten" I).
    intros Heq. apply (f_equal uint64_val) in Heq. vm_compute in Heq. discriminate.
  - vm_compute. reflexivity.
Defined.





(** ** Both providers *)

(** X17.  How stores and removals compose.  On both providers a second
    [Store] under the same key leaves the maps as the second store alone
    would (the last write wins), and storing a key that was missing and
    then removing it brings the maps back to what they were. *)
Theorem store_composition (K : KeyType) (V : Type) (codecs : file.Codecs K V)
    (gob : badger.Gob V) (k : key K) (v v' : V) :
  (∀ (p : file.provider K V) (w w1 w2 : os.World),
     let p1 := (file.Store k v p w).1.1 in
     entriesOf (file.Store k v' p1 w1).1.1 = entriesOf (file.Store k v' p w2).1.1
     ∧ (entriesOf p !! k = None → entriesOf (file.Remove k p1 w1).1.1 = entriesOf p)
     ∧ refsOf (file.Remove k p1 w1).1.1 = refsOf p)
  ∧ (supported K → serializable v → serializable v' →
     ∀ p : badger.provider,
       let p1 := (badger.Store k v p).1 in
       badger.db (badger.Store k v' p1).1 = badger.db (badger.Store k v' p).1
       ∧ (absent p k → badger.db (badger.Remove k p1).1 = badger.db p)).
Proof.
  split.
  - intros p w w1 w2 p1. subst p1. rewrite !file_Store_eq. simpl. split.
    { unfold entriesOf, withMaps. simpl. by rewrite insert_insert_eq. }
    rewrite (file_Remove_present k v)
      by (unfold entriesOf, withMaps; simpl; apply lookup_insert_eq).
    unfold entriesOf, refsOf, withMaps. simpl. split; [|done].
    intros Hk. rewrite delete_insert_eq. by apply delete_id.
  - intros HK Hv Hv' p p1. subst p1.
    destruct (serializable_decode v Hv) as [Henc _].
    destruct (serializable_decode v' Hv') as [Henc' _].
    rewrite (badger_Store_eq k v _ p HK Henc). simpl.
    rewrite !(badger_Store_eq k v' _ _ HK Henc'). unfold withDB. simpl.
    split; [by rewrite insert_insert_eq|].
    intros Hk. rewrite badger_Remove_eq by done. unfold withDB. simpl.
    rewrite delete_insert_eq. by apply delete_id.
Qed.

Lemma store_composition_witness :
  entriesOf (file.Remove (K:=KString) "new"
               (file.Store (K:=KString) "new" "v" fileTwo demo.emptyWorld).1.1
               demo.emptyWorld).1.1 = twoEntries
  ∧ badger.db (badger.Remove (K:=KString) "new"
                 (badger.Store (K:=KString) "new" "v" engineTwo).1).1 = badger.db engineTwo.
Proof.
  destruct (store_composition KString string demo.codecs demo.gob "new" "v" "v") as [Hf Hb].
  split.
  - apply (Hf fileTwo demo.emptyWorld demo.emptyWorld demo.emptyWorld). reflexivity.
  - apply (Hb I (demo_serializable "v") (demo_serializable "v") engineTwo). reflexivity.
Defined.

(** The loop of [GetMultiple] over any lookup: it returns the values of
    the keys in order, or the error of the first key whose lookup fails
    together with an empty list. *)
Lemma loop_first_failure {A B} (get : A → B * option error)
    (loop : list A → list B → list B * option error) (keys : list A) (acc : list B) :
  (∀ acc, loop [] acc = (acc, None)) →
  (∀ k keys acc, loop (k :: keys) acc =
     match get k with
     | (_, Some err) => ([], Some err)
     | (v, None) => loop keys (acc ++ [v])%list
     end) →
  (∃ vals, loop keys acc = ((acc ++ vals)%list, None)
           ∧ Forall2 (λ k v, get k = (v, None)) keys vals)
  ∨ (∃ pre k post vals err,
       keys = (pre ++ k :: post)%list
       ∧ Forall2 (λ k v, get k = (v, None)) pre vals
       ∧ (get k).2 = Some err
       ∧ loop keys acc = ([], Some err)).
Proof.
  intros Hnil Hcons. revert acc. induction keys as [|k keys IH]; intros acc.
  - left. exists []. rewrite Hnil, app_nil_r. by split.
  - rewrite Hcons. destruct (get k) as [v [e|]] eqn:Hk.
    + right. exists [], k, keys, [], e. rewrite Hk. by repeat split.
    + destruct (IH (acc ++ [v])%list) as [(vals & Hloop & Hall)
                                         |(pre & k' & post & vals & e & -> & Hall & He & Hloop)].
      * left. exists (v :: vals). rewrite Hloop, <- app_assoc. split; [done|].
        by constructor.
      * right. exists (k :: pre), k', post, (v :: vals), e.
        split; [done|]. split; [by constructor|]. by split.
Qed.

(** X18.  [GetMultiple] on both providers, with no assumption on the
    keys.  Either every [Get] succeeds and the result is the list of
    their values, one per key and in the order of the keys; or the call
    returns an empty list with the error of the first key whose [Get]
    fails, the keys behind it never being looked at. *)
Theorem get_multiple_first_failure (K : KeyType) (V : Type) (codecs : file.Codecs K V)
    (gob : badger.Gob V) (zeroV : V) (keys : list (key K)) :
  (∀ p : file.provider K V,
     (∃ vals, file.GetMultiple zeroV keys p = (vals, None)
              ∧ Forall2 (λ k v, file.Get zeroV k p = (v, None)) keys vals)
     ∨ (∃ pre k post vals,
          keys = (pre ++ k :: post)%list
          ∧ Forall2 (λ k v, file.Get zeroV k p = (v, None)) pre vals
          ∧ file.Get zeroV k p = (zeroV, Some NotFound)
          ∧ file.GetMultiple zeroV keys p = ([], Some NotFound)))
  ∧ (∀ p : badger.provider,
       (∃ vals, badger.GetMultiple zeroV keys p = (vals, None)
                ∧ Forall2 (λ k v, badger.Get zeroV k p = (v, None)) keys vals)
       ∨ (∃ pre k post vals err,
            keys = (pre ++ k :: post)%list
            ∧ Forall2 (λ k v, badger.Get zeroV k p = (v, None)) pre vals
            ∧ (badger.Get zeroV k p).2 = Some err
            ∧ badger.GetMultiple zeroV keys p = ([], Some err))).
Proof.
  split.
  - intros p.
    destruct (loop_first_failure (λ k, file.Get zeroV k p)
                (λ keys acc, file.getMultiple zeroV keys acc p) keys [])
      as [(vals & Hloop & Hall)|(pre & k & post & vals & e & -> & Hall & He & Hloop)];
      [done|done|by left; exists vals|].
    right. exists pre, k, post, vals. split; [done|]. split; [done|].
    assert (file.Get zeroV k p = (zeroV, Some NotFound)) as HGet.
    { revert He. unfold file.Get. by destruct (file.DataMap (file.data_ p) !! k). }
    rewrite HGet in He. injection He as <-. by split.
  - intros p.
    destruct (loop_first_failure (λ k, badger.Get zeroV k p)
                (λ keys acc, badger.getMultiple zeroV keys acc p) keys [])
      as [(vals & Hloop & Hall)|(pre & k & post & vals & e & -> & Hall & He & Hloop)];
      [done|done|by left; exists vals|].
    right. by exists pre, k, post, vals, e.
Qed.

(** ** The engine keyspace *)

(** X19.  The keys of the keyspace stay engine keys of provider keys: an
    empty keyspace has none, and [Store], [Remove], [StoreReference] and
    [RemoveReference] only ever write under the bytes [keyToByte] made of
    a key, so they keep the property. *)
Theorem canonicalKeys_kept (K : KeyType) (V : Type) (gob : badger.Gob V)
    (p : badger.provider) (k t : key K) (v : V) :
  (badger.db p = ∅ → canonicalKeys K p)
  ∧ (canonicalKeys K p →
     canonicalKeys K (badger.Store k v p).1
     ∧ canonicalKeys K (badger.Remove k p).1
     ∧ canonicalKeys K (badger.StoreReference k t p).1
     ∧ canonicalKeys K (badger.RemoveReference k p).1).
Proof.
  split.
  - intros Hdb kb. rewrite Hdb, lookup_empty. by intros [? ?].
  - intros Hp.
    assert (∀ b, canonicalKeys K (withDB p (<[keyBytes k := b]> (badger.db p)))) as Hins.
    { intros b kb. unfold withDB. simpl. destruct (decide (kb = keyBytes k)) as [->|Hne].
      - intros _. by exists k.
      - rewrite lookup_insert_ne by done. apply Hp. }
    assert (canonicalKeys K (withDB p (delete (keyBytes k) (badger.db p)))) as Hdel.
    { intros kb. unfold withDB. simpl. destruct (decide (kb = keyBytes k)) as [->|Hne].
      - rewrite lookup_delete_eq. by intros [? ?].
      - rewrite lookup_delete_ne by done. apply Hp. }
    unfold badger.Store, badger.Remove, badger.StoreReference, badger.RemoveReference,
      badger.encodeToBytes.
    pose proof (Hins (badger.gob_Encode v).1) as HStore.
    pose proof (Hins (keyBytes t)) as HRef.
    unfold keyBytes in *.
    destruct (badger.keyToByte k) as [kb [e|]]; [done|].
    split; [|split; [done|split; [|done]]].
    + destruct (badger.gob_Encode v) as [b [e|]]; [done|]. exact HStore.
    + destruct (badger.keyToByte t) as [tb [e|]]; [done|]. exact HRef.
Qed.

Lemma canonicalKeys_kept_witness : canonicalKeys KString engineTwo.
Proof.
  pose proof (proj1 (canonicalKeys_kept KString string demo.gob demo.engineProvider
                       "" "" "") eq_refl) as H0.
  pose proof (proj1 (proj2 (canonicalKeys_kept KString string demo.gob demo.engineProvider
                              "key1" "" "value1") H0)) as H1.
  exact (proj1 (proj2 (canonicalKeys_kept KString string demo.gob _ "key2" "" "value2") H1)).
Defined.

(** The entries the scan has visited come, one for one and in order,
    from the first items of the iterator. *)
Lemma iterate_logging_prefix {K V S} `{!badger.Gob V} (fn : key K → V → S → bool * S)
    (items : list (bytes * bytes)) (s : S) (log : list (key K * V)) :
  ∃ n visited,
    (badger.iterate (logging fn) items (s, log)).1.2 = (log ++ visited)%list
    ∧ Forall2 (λ item e, badger.byteToKey item.1 = (e.1, None)
                         ∧ badger.gob_Decode item.2 = (e.2, None))
        (take n items) visited.
Proof.
  revert s log. induction items as [|[kb vb] rest IH]; intros s log.
  - exists 0, []. simpl. rewrite app_nil_r. by split.
  - simpl. destruct (badger.byteToKey kb) as [k [e|]] eqn:Hk.
    { exists 0, []. simpl. rewrite app_nil_r. by split. }
    unfold badger.decodeFromBytes. destruct (badger.gob_Decode vb) as [v [e|]] eqn:Hv.
    { exists 0, []. simpl. destruct (is_ e stopIterationErr); simpl;
        rewrite app_nil_r; by split. }
    destruct (fn k v s) as [[] s'] eqn:Hfn; simpl.
    + destruct (IH s' (log ++ [(k, v)])%list) as (n & visited & Hlog & Hall).
      exists (Datatypes.S n), ((k, v) :: visited). rewrite Hlog, <- app_assoc. split; [done|].
      simpl. by constructor.
    + exists 1, [(k, v)]. split; [done|]. simpl. rewrite take_0. by repeat constructor.
Qed.

(** X20.  What [ForEach] of the engine provider hands to the visitor.
    On a keyspace whose keys are engine keys of provider keys, and for a
    supported key type, every pair the visitor is called with can be read
    back: [Get] of its key returns its value with no error.  No key is
    visited twice.  This holds whatever else the keyspace holds and
    whether the scan ends, is stopped or fails. *)
Theorem badger_ForEach_sound (K : KeyType) (V : Type) (gob : badger.Gob V) (zeroV : V)
    (S : Type) (fn : key K → V → S → bool * S) (s : S) (p : badger.provider) :
  supported K → canonicalKeys K p →
  Forall (λ e, badger.Get zeroV e.1 p = (e.2, None))
    (badger.ForEach (logging fn) p (s, [])).1.2
  ∧ NoDup (badger.ForEach (logging fn) p (s, [])).1.2.*1.
Proof.
  intros HK Hp. unfold badger.ForEach, engine.View.
  destruct (iterate_logging_prefix fn (engine.items (badger.db p)) s [])
    as (n & visited & Hlog & Hall).
  destruct (badger.iterate _ _ _) as [[s' log] err]. simpl in *. subst log.
  assert (engine.items (badger.db p) ≡ₚ map_to_list (badger.db p)) as Hperm
    by apply merge_sort_Permutation.
  assert (NoDup (take n (engine.items (badger.db p))).*1) as Hnodup.
  { apply (sublist_NoDup _ (engine.items (badger.db p)).*1).
    - rewrite Hperm. apply NoDup_fst_map_to_list.
    - apply fmap_sublist, sublist_take. }
  assert (Forall (λ item, badger.db p !! item.1 = Some item.2)
            (take n (engine.items (badger.db p)))) as Hitems.
  { apply Forall_forall. intros [kb vb] Hin. apply elem_of_map_to_list.
    rewrite <- Hperm. eapply elem_of_submseteq; [done|].
    apply sublist_submseteq, sublist_take. }
  revert Hall Hnodup Hitems.
  generalize (take n (engine.items (badger.db p))). clear Hperm.
  intros items Hall. induction Hall as [|[kb vb] [k v] items visited [Hk Hv] Hall' IH];
    simpl; intros Hnodup Hitems; [split; constructor|].
  apply NoDup_cons in Hnodup as [Hfresh Hnodup].
  apply Forall_cons in Hitems as [Hitem Hitems]. simpl in *.
  destruct (IH Hnodup Hitems) as [IHget IHnodup].
  assert (kb = keyBytes k) as ->.
  { destruct (Hp kb) as [k' ->]; [by eexists|].
    rewrite (byteToKey_keyToByte k' HK) in Hk. by injection Hk as ->. }
  split.
  - constructor; [|done]. simpl. apply badger_Get_stored; [done|]. by exists vb.
  - constructor; [|done]. intros Hin. apply Hfresh.
    apply list_elem_of_fmap in Hin as ([k2 v2] & -> & Hin). simpl.
    apply list_elem_of_fmap.
    destruct (proj1 (list_elem_of_lookup visited (k2, v2)) Hin) as [i Hi].
    destruct (Forall2_lookup_r _ _ _ _ _ Hall' Hi) as ([kb2 vb2] & Hi' & Hk2 & _).
    exists (kb2, vb2). simpl in *. split; [|by eapply list_elem_of_lookup_2].
    apply Forall_lookup_1 with (i := i) (x := (kb2, vb2)) in Hitems; [|done].
    destruct (Hp kb2) as [k' ->]; [by eexists|].
    rewrite (byteToKey_keyToByte k' HK) in Hk2. by injection Hk2 as ->.
Qed.

Lemma string_keys_canonical (p : badger.provider) : canonicalKeys KString p.
Proof.
  intros kb _. exists (string_of_list_ascii kb).
  unfold keyBytes. simpl. by rewrite list_ascii_of_string_of_list_ascii.
Qed.

Lemma badger_ForEach_sound_witness :
  let p := (badger.StoreReference (K:=KString) "z-ref" "key"
              (badger.Store (K:=KString) "key" "value" demo.engineProvider).1).1 in
  Forall (λ e, badger.Get (K:=KString) "" e.1 p = (e.2, None))
    (badger.ForEach (K:=KString) (logging collect) p (tt, [])).1.2
  ∧ NoDup (badger.ForEach (K:=KString) (logging collect) p (tt, [])).1.2.*1.
Proof.
  intros p.
  apply (badger_ForEach_sound KString string demo.gob "" unit collect tt p I).
  apply string_keys_canonical.
Defined.

(** ** Opening the engine provider *)

(** X21.  [New] of the engine provider.  A configuration that is neither
    in memory nor has a directory is refused before the engine is
    opened.  An in-memory configuration opens the engine in memory with
    an empty directory name, whatever directory it names; any other opens
    the engine on its directory.  The provider returned holds the opened
    keyspace, and an error of the opening is returned with no
    provider. *)
Theorem badger_New_config (opener : badger.Opener) (cfg : badger.Config) :
  (badger.InMemory cfg = false → badger.DirectoryPath cfg = None →
     badger.New cfg = (None, Some (errorString "directory path is null")))
  ∧ (badger.InMemory cfg = true →
     badger.New cfg =
       match badger.Open (engine.mkOptions "" true) with
       | (_, Some err) => (None, Some err)
       | (db, None) => (Some (badger.mkProvider cfg db), None)
       end)
  ∧ (∀ dir, badger.InMemory cfg = false → badger.DirectoryPath cfg = Some dir →
       badger.New cfg =
         match badger.Open (engine.mkOptions dir false) with
         | (_, Some err) => (None, Some err)
         | (db, None) => (Some (badger.mkProvider cfg db), None)
         end).
Proof.
  unfold badger.New, badger.Setup. simpl. split; [|split].
  - by intros -> ->.
  - intros ->. simpl. unfold engine.WithInMemory, engine.DefaultOptions. simpl.
    by destruct (badger.Open _) as [db [e|]].
  - intros dir -> ->. simpl. unfold engine.DefaultOptions.
    by destruct (badger.Open _) as [db [e|]].
Qed.

Lemma badger_New_config_witness :
  badger.New (badger.mkConfig None false)
  = (None, Some (errorString "directory path is null"))
  ∧ badger.New (badger.mkConfig (Some "/data") true)
    = (Some (badger.mkProvider (badger.mkConfig (Some "/data") true) ∅), None).
Proof.
  split.
  - apply (proj1 (badger_New_config demo.open (badger.mkConfig None false)));
      reflexivity.
  - etrans; [apply (proj1 (proj2 (badger_New_config demo.open
                                    (badger.mkConfig (Some "/data") true)))); reflexivity|].
    reflexivity.
Defined.

(** ** Construction from inline content *)

(** X22.  [New] on a configuration with inline content never looks at
    the path and touches no file.  The content is tried as the compact
    format first and the provider remembers that format when it decodes;
    otherwise it is tried as the document format, decoding into whatever
    the failed first attempt left in the maps; when both fail the error
    of the second attempt is returned with no provider. *)
Theorem file_New_from_content (K : KeyType) (V : Type) (codecs : file.Codecs K V)
    (cfg : file.Config) (w : os.World) :
  file.Content cfg ≠ "" →
  file.New (K:=K) (V:=V) cfg w =
    match file.json_Unmarshal (list_ascii_of_string (file.Content cfg)) noData with
    | (d, None) => (Some (file.mkProvider cfg d file.jsn), w, None)
    | (d, Some _) =>
        match file.yaml_Unmarshal (list_ascii_of_string (file.Content cfg)) d with
        | (d', None) => (Some (file.mkProvider cfg d' file.yml), w, None)
        | (_, Some err) => (None, w, Some err)
        end
    end.
Proof.
  intros Hc%String.eqb_neq. unfold file.New, file.Setup, noData. rewrite Hc. simpl.
  destruct (file.json_Unmarshal _ _) as [d [e|]].
  - destruct (file.yaml_Unmarshal _ _) as [d' [e'|]]; [done|]. simpl. by rewrite Hc.
  - simpl. by rewrite Hc.
Qed.

Lemma file_New_from_content_witness :
  file.New (K:=KString) (V:=string) (file.mkConfig "no/such/dir/data.txt" "{}") lockedWorld
  = (Some (file.mkProvider (file.mkConfig "no/such/dir/data.txt" "{}") noData file.jsn),
     lockedWorld, None).
Proof.
  etrans; [apply (file_New_from_content KString string demo.codecs
                    (file.mkConfig "no/such/dir/data.txt" "{}") lockedWorld); discriminate|].
  reflexivity.
Defined.
